(** * Index construction of the CNTK text-format indexer

    A shallow embedding of [Source/Readers/ReaderLib/Indexer.h]:
    [SequenceDescriptor], [ChunkDescriptor] and [Index] with its two
    mutators [Index::Reserve] and [Index::AddSequence].

    Conventions.
    - [size_t] is the 64-bit unsigned type, [uint32_t] the 32-bit one; both
      are carried as [Z] and every arithmetic operation of the source is
      followed by its wrap-around ([wrap64], [wrap32]).
    - [std::vector] is a [list]; a pointer into [m_chunks] is the position
      of the element it points to.
    - [std::map] is a [gmap]; [std::map::insert] keeps an existing entry.
    - [RuntimeError] throws: the index stays as it was mutated up to the
      throw, so [AddSequence] returns the index together with an [outcome]. *)

From Stdlib Require Import ZArith Lia.
From stdpp Require Import base list gmap.

Local Open Scope Z_scope.

(** ** Fixed-width integers *)

(** [static_cast<uint32_t>(x)] *)
Definition wrap32 (x : Z) : Z := x mod 2 ^ 32.

(** arithmetic in [size_t] *)
Definition wrap64 (x : Z) : Z := x mod 2 ^ 64.

(** ** Data model *)

(** [KeyType] is declared in DataDeserializer.h, which is not among the
    sources; [AddSequence] reads its [m_sequence] member as a [size_t].
    The second member is the sub-sequence identifier named by the
    specification. *)
Record KeyType := mkKey { m_sequence : Z; m_sample : Z }.

Module SequenceDescriptor.
Record t := mk {
    m_key : KeyType;
    m_numberOfSamples : Z;    (* uint32_t *)
    m_chunkOffsetBytes : Z;   (* uint32_t *)
    m_byteSize : Z            (* uint32_t *)
  }.

  (** [SequenceDescriptor(KeyType key, uint32_t numberOfSamples)] *)
Definition ctor (key : KeyType) (numberOfSamples : Z) : t :=
    mk key numberOfSamples 0 0.

Definition set_m_byteSize (v : Z) (sd : t) : t :=
    mk (m_key sd) (m_numberOfSamples sd) (m_chunkOffsetBytes sd) v.

Definition set_m_chunkOffsetBytes (v : Z) (sd : t) : t :=
    mk (m_key sd) (m_numberOfSamples sd) v (m_byteSize sd).

Definition SequenceOffsetInChunk (sd : t) : Z := m_chunkOffsetBytes sd.
Definition SizeInBytes (sd : t) : Z := m_byteSize sd.
End SequenceDescriptor.

Module ChunkDescriptor.
  (** The first three fields are those of the base [ChunkDescription]
      (DataDeserializer.h, not among the sources): the chunk id of type
      [ChunkIdType] and the two running totals, which [AddSequence]
      increments as [size_t] counters. *)
Record t := mk {
    m_id : Z;
    m_numberOfSamples : Z;
    m_numberOfSequences : Z;
    m_sequences : list SequenceDescriptor.t;
    m_offset : Z;             (* size_t *)
    m_byteSize : Z;           (* size_t *)
    m_firstSamples : list Z   (* std::vector<size_t> *)
  }.

  (** [ChunkDescriptor() : ChunkDescription({}), m_byteSize(0), m_offset(0)] *)
Definition ctor : t := mk 0 0 0 [] 0 0 [].

Definition set_m_id (v : Z) (c : t) : t :=
    mk v (m_numberOfSamples c) (m_numberOfSequences c) (m_sequences c)
       (m_offset c) (m_byteSize c) (m_firstSamples c).
Definition set_m_numberOfSamples (v : Z) (c : t) : t :=
    mk (m_id c) v (m_numberOfSequences c) (m_sequences c)
       (m_offset c) (m_byteSize c) (m_firstSamples c).
Definition set_m_numberOfSequences (v : Z) (c : t) : t :=
    mk (m_id c) (m_numberOfSamples c) v (m_sequences c)
       (m_offset c) (m_byteSize c) (m_firstSamples c).
Definition set_m_sequences (v : list SequenceDescriptor.t) (c : t) : t :=
    mk (m_id c) (m_numberOfSamples c) (m_numberOfSequences c) v
       (m_offset c) (m_byteSize c) (m_firstSamples c).
Definition set_m_offset (v : Z) (c : t) : t :=
    mk (m_id c) (m_numberOfSamples c) (m_numberOfSequences c) (m_sequences c)
       v (m_byteSize c) (m_firstSamples c).
Definition set_m_byteSize (v : Z) (c : t) : t :=
    mk (m_id c) (m_numberOfSamples c) (m_numberOfSequences c) (m_sequences c)
       (m_offset c) v (m_firstSamples c).
Definition set_m_firstSamples (v : list Z) (c : t) : t :=
    mk (m_id c) (m_numberOfSamples c) (m_numberOfSequences c) (m_sequences c)
       (m_offset c) (m_byteSize c) v.
End ChunkDescriptor.

#[global] Instance ChunkDescriptor_inhabited : Inhabited ChunkDescriptor.t :=
  populate ChunkDescriptor.ctor.

Module Index.
Record t := mk {
    m_chunks : list ChunkDescriptor.t;
    m_keyToSequenceInChunk : gmap Z (Z * Z);
    m_maxChunkSize : Z;
    m_primary : bool;
    m_trackFirstSamples : bool
  }.

  (** [Index(size_t chunkSize, bool primary, bool trackFirstSamples)] *)
Definition ctor (chunkSize : Z) (primary trackFirstSamples : bool) : t :=
    mk [] ∅ chunkSize primary trackFirstSamples.

Definition set_m_chunks (v : list ChunkDescriptor.t) (idx : t) : t :=
    mk v (m_keyToSequenceInChunk idx) (m_maxChunkSize idx)
       (m_primary idx) (m_trackFirstSamples idx).
Definition set_m_keyToSequenceInChunk (v : gmap Z (Z * Z)) (idx : t) : t :=
    mk (m_chunks idx) v (m_maxChunkSize idx)
       (m_primary idx) (m_trackFirstSamples idx).

Definition IsEmpty (idx : t) : bool :=
    match m_chunks idx with [] => true | _ => false end.
End Index.

(** The four [RuntimeError] calls of [AddSequence], by their messages. *)
Inductive RuntimeError :=
  | SequenceByteSizeOverflow        (* Sequence byte size overflows uint32_t type. *)
  | MaximumNumberOfChunksExceeded   (* Maximum number of chunks exceeded *)
  | NumberOfSequencesOverflow       (* Number of sequences overflow the chunk capacity. *)
  | ChunkSizeOverflow.              (* Chunk size overflows uint32_t type. *)

Inductive outcome :=
  | Returned
  | Raised (e : RuntimeError)
  | AssertionFailed.                (* assert(!m_chunks.empty()) *)

#[global] Instance RuntimeError_eq_dec : EqDecision RuntimeError.
Proof. solve_decision. Defined.
#[global] Instance outcome_eq_dec : EqDecision outcome.
Proof. solve_decision. Defined.

(** [std::map::insert]: the element is inserted only when the key is not
    yet in the container. *)
Definition map_insert (k : Z) (v : Z * Z) (m : gmap Z (Z * Z)) : gmap Z (Z * Z) :=
  match m !! k with
  | Some _ => m
  | None => <[k := v]> m
  end.

(** [std::vector::size] as a [size_t]. *)
Definition vector_size {A} (v : list A) : Z := Z.of_nat (length v).

(** The local pointer variable of [AddSequence]. *)
Record locals := mkLocals {
  chunk : nat   (* ChunkDescriptor* chunk, as a position in m_chunks *)
}.

(** [const auto& previousChunk = chunk;] deduces [ChunkDescriptor* const&]:
    the name is bound to the pointer variable [chunk] itself, not to a copy
    of its value, so reading it yields what [chunk] holds at that moment. *)
Definition previousChunk (l : locals) : nat := chunk l.

Section Indexer.

(** [CHUNKID_MAX] and [ChunkIdType] come from DataDeserializer.h, which is
    not among the sources.  [CHUNKID_MAX] is taken as it is; the cast
    [(ChunkIdType)x] reduces modulo [CHUNKID_MAX + 1], the specification
    calling [CHUNKID_MAX] the maximum representable chunk-id value. *)
Variable CHUNKID_MAX : Z.

Definition to_ChunkIdType (x : Z) : Z := x mod (CHUNKID_MAX + 1).

(** Lines 100-111: the body of the chunk-boundary branch.  Returns the
    vector, the pointer variable and whether "Maximum number of chunks
    exceeded" is raised. *)
Definition open_chunk (chunks : list ChunkDescriptor.t) (l : locals)
  : list ChunkDescriptor.t * locals * bool :=
  (* const auto& previousChunk = chunk;
     previousChunk->m_sequences.shrink_to_fit();          capacity only *)
  (* m_chunks.push_back({}); *)
  let chunks := chunks ++ [ChunkDescriptor.ctor] in
  (* chunk = &m_chunks.back(); *)
  let l := mkLocals (length chunks - 1)%nat in
  (* chunk->m_id = (ChunkIdType)(m_chunks.size() - 1); *)
  let chunks :=
    alter (ChunkDescriptor.set_m_id (to_ChunkIdType (wrap64 (vector_size chunks - 1))))
          (chunk l) chunks in
  (* chunk->m_offset = previousChunk->m_offset + previousChunk->m_byteSize; *)
  let chunks :=
    alter (ChunkDescriptor.set_m_offset
             (wrap64 (ChunkDescriptor.m_offset (chunks !!! previousChunk l)
                      + ChunkDescriptor.m_byteSize (chunks !!! previousChunk l))))
          (chunk l) chunks in
  (* if (CHUNKID_MAX < m_chunks.size()) RuntimeError(...); *)
  (chunks, l, CHUNKID_MAX <? vector_size chunks).

(** Lines 114-119: first-sample table and running totals of [*chunk]. *)
Definition account (trackFirstSamples : bool) (sd : SequenceDescriptor.t)
    (c : ChunkDescriptor.t) : ChunkDescriptor.t :=
  (* if (m_trackFirstSamples)
         chunk->m_firstSamples.push_back(chunk->m_numberOfSamples); *)
  let c :=
    if trackFirstSamples
    then ChunkDescriptor.set_m_firstSamples
           (ChunkDescriptor.m_firstSamples c ++ [ChunkDescriptor.m_numberOfSamples c]) c
    else c in
  (* chunk->m_byteSize += sd.m_byteSize; *)
  let c := ChunkDescriptor.set_m_byteSize
             (wrap64 (ChunkDescriptor.m_byteSize c + SequenceDescriptor.m_byteSize sd)) c in
  (* chunk->m_numberOfSequences++; *)
  let c := ChunkDescriptor.set_m_numberOfSequences
             (wrap64 (ChunkDescriptor.m_numberOfSequences c + 1)) c in
  (* chunk->m_numberOfSamples += sd.m_numberOfSamples; *)
  ChunkDescriptor.set_m_numberOfSamples
    (wrap64 (ChunkDescriptor.m_numberOfSamples c + SequenceDescriptor.m_numberOfSamples sd)) c.

(** [chunk->m_sequences.push_back(sd)] *)
Definition push_sequence (sd : SequenceDescriptor.t) (c : ChunkDescriptor.t)
  : ChunkDescriptor.t :=
  ChunkDescriptor.set_m_sequences (ChunkDescriptor.m_sequences c ++ [sd]) c.

(** [void Index::AddSequence(SequenceDescriptor&& sd,
                             size_t startOffsetInFile, size_t endOffsetInFile)] *)
Definition AddSequence (idx : Index.t) (sd : SequenceDescriptor.t)
    (startOffsetInFile endOffsetInFile : Z) : Index.t * outcome :=
  (* sd.m_byteSize = static_cast<uint32_t>(endOffsetInFile - startOffsetInFile); *)
  let sd := SequenceDescriptor.set_m_byteSize
              (wrap32 (wrap64 (endOffsetInFile - startOffsetInFile))) sd in
  (* if (static_cast<size_t>(sd.m_byteSize) != endOffsetInFile - startOffsetInFile) *)
  if negb (SequenceDescriptor.m_byteSize sd =? wrap64 (endOffsetInFile - startOffsetInFile))
  then (idx, Raised SequenceByteSizeOverflow)
  else
  (* assert(!m_chunks.empty()); *)
  if Index.IsEmpty idx then (idx, AssertionFailed)
  else
  let chunks := Index.m_chunks idx in
  (* ChunkDescriptor* chunk = &m_chunks.back(); *)
  let l := mkLocals (length chunks - 1)%nat in
  (* if (chunk->m_byteSize > 0 && (chunk->m_byteSize + sd.m_byteSize) > m_maxChunkSize) *)
  let '(chunks, l, exceeded) :=
    if (0 <? ChunkDescriptor.m_byteSize (chunks !!! chunk l))
       && (Index.m_maxChunkSize idx
             <? wrap64 (ChunkDescriptor.m_byteSize (chunks !!! chunk l)
                        + SequenceDescriptor.m_byteSize sd))
    then open_chunk chunks l
    else (chunks, l, false) in
  if exceeded
  then (Index.set_m_chunks chunks idx, Raised MaximumNumberOfChunksExceeded)
  else
  let chunks := alter (account (Index.m_trackFirstSamples idx) sd) (chunk l) chunks in
  let idx := Index.set_m_chunks chunks idx in
  (* auto location = std::make_pair(chunk->m_id,
                                    static_cast<uint32_t>(chunk->m_sequences.size()));
     the map stores the pair as two uint32_t *)
  let location :=
    (wrap32 (ChunkDescriptor.m_id (chunks !!! chunk l)),
     wrap32 (vector_size (ChunkDescriptor.m_sequences (chunks !!! chunk l)))) in
  (* if (!m_primary) { if (location.second != chunk->m_sequences.size()) RuntimeError(...) *)
  if negb (Index.m_primary idx)
     && negb (location.2 =? vector_size (ChunkDescriptor.m_sequences (chunks !!! chunk l)))
  then (idx, Raised NumberOfSequencesOverflow)
  else
  let idx :=
    if negb (Index.m_primary idx)
    then
      (* auto sequenceId = sd.m_key.m_sequence;
         m_keyToSequenceInChunk.insert(std::make_pair(sequenceId, location)); } *)
      let sequenceId := m_sequence (SequenceDescriptor.m_key sd) in
      Index.set_m_keyToSequenceInChunk
        (map_insert sequenceId location (Index.m_keyToSequenceInChunk idx)) idx
    else idx in
  (* sd.m_chunkOffsetBytes = static_cast<uint32_t>(startOffsetInFile - chunk->m_offset); *)
  let sd := SequenceDescriptor.set_m_chunkOffsetBytes
              (wrap32 (wrap64 (startOffsetInFile
                               - ChunkDescriptor.m_offset (chunks !!! chunk l)))) sd in
  (* if (static_cast<size_t>(sd.m_chunkOffsetBytes) != startOffsetInFile - chunk->m_offset) *)
  if negb (SequenceDescriptor.m_chunkOffsetBytes sd
           =? wrap64 (startOffsetInFile - ChunkDescriptor.m_offset (chunks !!! chunk l)))
  then (idx, Raised ChunkSizeOverflow)
  else
  (* chunk->m_sequences.push_back(sd); *)
  (Index.set_m_chunks (alter (push_sequence sd) (chunk l) chunks) idx, Returned).

(** [void Index::Reserve(size_t sizeInBytes)], when it returns:
    [m_chunks.reserve] only sets the capacity of the vector, and the call
    then seeds one empty chunk with [m_chunks.push_back({})].  A request
    beyond [max_size()] makes [m_chunks.reserve] throw instead;
    [Reserve_or_throw] below is the call with that exit. *)
Definition Reserve (idx : Index.t) (sizeInBytes : Z) : Index.t :=
  Index.set_m_chunks (Index.m_chunks idx ++ [ChunkDescriptor.ctor]) idx.

End Indexer.

(** ** Building an index *)

(** One call of [AddSequence] as the indexer issues it. *)
Record call := mkCall {
  call_sd : SequenceDescriptor.t;
  call_start : Z;   (* startOffsetInFile *)
  call_end : Z      (* endOffsetInFile *)
}.

(** The calls in order, stopping at the first one that does not return. *)
Fixpoint run (CHUNKID_MAX : Z) (idx : Index.t) (calls : list call) : Index.t * outcome :=
  match calls with
  | [] => (idx, Returned)
  | c :: calls =>
    match AddSequence CHUNKID_MAX idx (call_sd c) (call_start c) (call_end c) with
    | (idx, Returned) => run CHUNKID_MAX idx calls
    | failed => failed
    end
  end.

(** Construct, [Reserve] once, then add the sequences. *)
Definition build (CHUNKID_MAX : Z) (chunkSize : Z) (primary trackFirstSamples : bool)
    (sizeInBytes : Z) (calls : list call) : Index.t * outcome :=
  run CHUNKID_MAX (Reserve (Index.ctor chunkSize primary trackFirstSamples) sizeInBytes) calls.

(** Values of the two unsigned types. *)
Definition uint32_t (x : Z) : Prop := 0 <= x < 2 ^ 32.
Definition size_t (x : Z) : Prop := 0 <= x < 2 ^ 64.

(** The indexes reachable by one [Reserve] followed by [AddSequence] calls
    that all returned.  The premises besides the calls themselves are the
    C++ types of the arguments. *)
Inductive Built (CHUNKID_MAX : Z) : Index.t -> Prop :=
  | Built_Reserve chunkSize primary trackFirstSamples sizeInBytes :
      size_t chunkSize ->
      Built CHUNKID_MAX (Reserve (Index.ctor chunkSize primary trackFirstSamples) sizeInBytes)
  | Built_AddSequence idx sd startOffsetInFile endOffsetInFile idx' :
      Built CHUNKID_MAX idx ->
      uint32_t (SequenceDescriptor.m_numberOfSamples sd) ->
      size_t startOffsetInFile ->
      size_t endOffsetInFile ->
      AddSequence CHUNKID_MAX idx sd startOffsetInFile endOffsetInFile = (idx', Returned) ->
      Built CHUNKID_MAX idx'.

(** The same, with every record starting where the previous one ended and
    the first one at file offset 0; the second index is the file offset
    reached so far. *)
Inductive BuiltContiguous (CHUNKID_MAX : Z) : Index.t -> Z -> Prop :=
  | BuiltContiguous_Reserve chunkSize primary trackFirstSamples sizeInBytes :
      size_t chunkSize ->
      BuiltContiguous CHUNKID_MAX
        (Reserve (Index.ctor chunkSize primary trackFirstSamples) sizeInBytes) 0
  | BuiltContiguous_AddSequence idx pos sd endOffsetInFile idx' :
      BuiltContiguous CHUNKID_MAX idx pos ->
      uint32_t (SequenceDescriptor.m_numberOfSamples sd) ->
      pos <= endOffsetInFile ->
      size_t endOffsetInFile ->
      AddSequence CHUNKID_MAX idx sd pos endOffsetInFile = (idx', Returned) ->
      BuiltContiguous CHUNKID_MAX idx' endOffsetInFile.

Definition well_typed (c : call) : Prop :=
  uint32_t (SequenceDescriptor.m_numberOfSamples (call_sd c)) /\
  size_t (call_start c) /\ size_t (call_end c).

(** Total sample count of a run of sequences, as a mathematical integer. *)
Definition sum_samples (l : list SequenceDescriptor.t) : Z :=
  foldr (fun s acc => SequenceDescriptor.m_numberOfSamples s + acc) 0 l.

(** All descriptors of an index, in file order. *)
Definition all_sequences (idx : Index.t) : list SequenceDescriptor.t :=
  Index.m_chunks idx ≫= ChunkDescriptor.m_sequences.

(** Dereferencing a location of the key map:
    [m_chunks[location.first].m_sequences[location.second]]. *)
Definition resolve (idx : Index.t) (location : Z * Z) : option SequenceDescriptor.t :=
  c ← Index.m_chunks idx !! Z.to_nat location.1;
  ChunkDescriptor.m_sequences c !! Z.to_nat location.2.

(** The value the upstream headers give [CHUNKID_MAX]: [ChunkIdType] is
    [uint32_t] there.  Used for the concrete runs only. *)
Definition CHUNKID_MAX_u32 : Z := 2 ^ 32 - 1.

Definition key (n : Z) : KeyType := mkKey n 0.
Definition sd1 (n : Z) : SequenceDescriptor.t := SequenceDescriptor.ctor (key n) 1.

(** Two records of 8 bytes in file order, for a cap of 10 bytes. *)
Definition two_records : list call :=
  [mkCall (sd1 0) 0 8; mkCall (sd1 1) 8 16].

(** An empty record followed by one of 20 bytes, for a cap of 10 bytes. *)
Definition empty_then_large : list call :=
  [mkCall (sd1 0) 0 0; mkCall (sd1 1) 0 20].

(** One record of 5 bytes that starts at file offset 100. *)
Definition late_record : list call := [mkCall (sd1 0) 100 105].

(** An empty record at file offset 0, and what a secondary index with a cap
    of 10 bytes looks like after [n >= 1] of them. *)
Definition zero_record : call := mkCall (sd1 0) 0 0.

Definition crowded (n : nat) : Index.t :=
  Index.mk
    [ChunkDescriptor.mk 0 (Z.of_nat n) (Z.of_nat n)
       (replicate n (SequenceDescriptor.mk (key 0) 1 0 0)) 0 0 []]
    {[ 0 := (0, 0) ]} 10 false false.

(** An empty record at file offset 0 that carries the largest sample count
    of a [uint32_t], and what a primary index with a first-sample table
    looks like after [n] of them. *)
Definition heavy_record : call :=
  mkCall (SequenceDescriptor.ctor (key 0) (2 ^ 32 - 1)) 0 0.

Definition heavy_chunk (n : nat) : ChunkDescriptor.t :=
  ChunkDescriptor.mk 0 (wrap64 (Z.of_nat n * (2 ^ 32 - 1))) (wrap64 (Z.of_nat n))
    (replicate n (SequenceDescriptor.mk (key 0) (2 ^ 32 - 1) 0 0)) 0 0
    ((fun i : nat => wrap64 (Z.of_nat i * (2 ^ 32 - 1))) <$> seq 0 n).

Definition heavy (n : nat) : Index.t := Index.mk [heavy_chunk n] ∅ 10 true true.

(** The indexes the concrete runs below end in; all use the upstream
    [CHUNKID_MAX]. *)
Definition one_chunk : Index.t :=
  (build CHUNKID_MAX_u32 10 false true 16 [mkCall (sd1 0) 0 8]).1.
Definition two_chunks : Index.t :=
  (build CHUNKID_MAX_u32 10 false true 16 two_records).1.
Definition large_chunk : Index.t :=
  (build CHUNKID_MAX_u32 10 true false 20 empty_then_large).1.
Definition late_chunk : Index.t :=
  (build CHUNKID_MAX_u32 10 true false 105 late_record).1.

(** 2^32 and 2^32 + 2 as numbers of calls; never unfolded. *)
Definition two_pow_32 : nat := Z.to_nat (2 ^ 32).
Definition two_pow_32_plus_2 : nat := Z.to_nat (2 ^ 32 + 2).

(** ** Invariants of built indexes *)

(** A chunk that holds one record larger than the cap: that record comes
    last, carries the whole byte size of the chunk, and whatever precedes it
    in the chunk is empty. *)
Definition oversized_alone (maxChunkSize : Z) (c : ChunkDescriptor.t) : Prop :=
  exists zs s,
    ChunkDescriptor.m_sequences c = zs ++ [s] /\
    Forall (fun z => SequenceDescriptor.m_byteSize z = 0) zs /\
    SequenceDescriptor.m_byteSize s = ChunkDescriptor.m_byteSize c /\
    maxChunkSize < SequenceDescriptor.m_byteSize s.

Definition chunk_size_ok (maxChunkSize : Z) (c : ChunkDescriptor.t) : Prop :=
  0 <= ChunkDescriptor.m_byteSize c /\
  Forall (fun z => 0 <= SequenceDescriptor.m_byteSize z < 2 ^ 32)
         (ChunkDescriptor.m_sequences c) /\
  (ChunkDescriptor.m_byteSize c <= maxChunkSize \/ oversized_alone maxChunkSize c) /\
  (maxChunkSize < 2 ^ 32 -> ChunkDescriptor.m_byteSize c = 0 ->
   Forall (fun z => SequenceDescriptor.m_byteSize z = 0) (ChunkDescriptor.m_sequences c)).

(** With [m_trackFirstSamples]: the first-sample table runs parallel to the
    sequences and holds the running total as the [size_t] counter had it. *)
Definition first_samples_ok (c : ChunkDescriptor.t) : Prop :=
  length (ChunkDescriptor.m_firstSamples c) = length (ChunkDescriptor.m_sequences c) /\
  (forall (i : nat) x,
     ChunkDescriptor.m_firstSamples c !! i = Some x ->
     x = wrap64 (sum_samples (take i (ChunkDescriptor.m_sequences c)))) /\
  ChunkDescriptor.m_numberOfSamples c = wrap64 (sum_samples (ChunkDescriptor.m_sequences c)) /\
  Forall (fun z => uint32_t (SequenceDescriptor.m_numberOfSamples z))
         (ChunkDescriptor.m_sequences c).

(** ** Further notions used below *)

(** Total byte size of a run of sequences, as a mathematical integer. *)
Definition sum_byteSize (l : list SequenceDescriptor.t) : Z :=
  foldr (fun s acc => SequenceDescriptor.m_byteSize s + acc) 0 l.

(** The argument [Index::Reserve] passes to [m_chunks.reserve], when it
    calls it:
    [if (m_maxChunkSize > 0)
         m_chunks.reserve((sizeInBytes + m_maxChunkSize - 1) / m_maxChunkSize);] *)
Definition reserve_request (idx : Index.t) (sizeInBytes : Z) : option Z :=
  if 0 <? Index.m_maxChunkSize idx
  then Some (wrap64 (wrap64 (sizeInBytes + Index.m_maxChunkSize idx) - 1)
             / Index.m_maxChunkSize idx)
  else None.

(** What a descriptor carries apart from its place in the chunk. *)
Definition payload (x : SequenceDescriptor.t) : KeyType * Z * Z :=
  (SequenceDescriptor.m_key x, SequenceDescriptor.m_numberOfSamples x,
   SequenceDescriptor.m_byteSize x).

(** The same for a call: key, sample count and the byte size line 92
    computes. *)
Definition call_payload (c : call) : KeyType * Z * Z :=
  (SequenceDescriptor.m_key (call_sd c),
   SequenceDescriptor.m_numberOfSamples (call_sd c),
   wrap64 (call_end c - call_start c)).

(** A secondary index with two records of one key, and the seeded index
    nothing has been added to. *)
Definition duplicate_keys : Index.t :=
  (build CHUNKID_MAX_u32 10 false false 8 [mkCall (sd1 0) 0 4; mkCall (sd1 0) 4 8]).1.
Definition seeded : Index.t := Reserve (Index.ctor 10 true false) 0.

(** Three records of 3, 5 and 7 samples that share one chunk of a primary
    index with a first-sample table. *)
Definition three_records : list call :=
  [mkCall (SequenceDescriptor.ctor (key 0) 3) 0 10;
   mkCall (SequenceDescriptor.ctor (key 1) 5) 10 20;
   mkCall (SequenceDescriptor.ctor (key 2) 7) 20 30].
Definition three_samples : Index.t :=
  (build CHUNKID_MAX_u32 100 true true 30 three_records).1.

(** ** [Reserve] with its exception *)

(** How a call of [Index::Reserve] ends.  [std::vector::reserve(n)] throws
    [std::length_error] when [n > max_size()], before it touches the vector.
    Memory is taken to be available: [std::bad_alloc] is not modelled. *)
Inductive reserve_outcome :=
  | ReserveReturned
  | LengthError.

(** [void Index::Reserve(size_t sizeInBytes)], for a vector whose
    [max_size()] is [max_size]. *)
Definition Reserve_or_throw (max_size : Z) (idx : Index.t) (sizeInBytes : Z)
  : Index.t * reserve_outcome :=
  (* if (m_maxChunkSize > 0)
         m_chunks.reserve((sizeInBytes + m_maxChunkSize - 1) / m_maxChunkSize); *)
  match reserve_request idx sizeInBytes with
  | Some n =>
    if max_size <? n then (idx, LengthError)
    else
      (* m_chunks.push_back({}); *)
      (Index.set_m_chunks (Index.m_chunks idx ++ [ChunkDescriptor.ctor]) idx, ReserveReturned)
  | None =>
    (* m_chunks.push_back({}); *)
    (Index.set_m_chunks (Index.m_chunks idx ++ [ChunkDescriptor.ctor]) idx, ReserveReturned)
  end.

(** ** Reasoning about the last chunk *)

Lemma back_position {A} (pre : list A) (c : A) :
  (length (pre ++ [c]) - 1)%nat = length pre.
Proof. rewrite length_app. simpl. lia. Qed.

Lemma lookup_back (pre : list ChunkDescriptor.t) (c : ChunkDescriptor.t) :
  (pre ++ [c]) !!! length pre = c.
Proof. by apply list_lookup_total_middle. Qed.

Lemma alter_back (f : ChunkDescriptor.t -> ChunkDescriptor.t) pre c :
  alter f (length pre) (pre ++ [c]) = pre ++ [f c].
Proof.
  replace (length pre) with (length pre + 0)%nat at 1 by lia.
  by rewrite alter_app_r.
Qed.

Lemma IsEmpty_snoc idx pre c :
  Index.m_chunks idx = pre ++ [c] -> Index.IsEmpty idx = false.
Proof. unfold Index.IsEmpty. intros ->. by destruct pre. Qed.

Lemma wrap32_range x : 0 <= wrap32 x < 2 ^ 32.
Proof. unfold wrap32. apply Z.mod_pos_bound. lia. Qed.

Lemma wrap64_range x : 0 <= wrap64 x < 2 ^ 64.
Proof. unfold wrap64. apply Z.mod_pos_bound. lia. Qed.

Lemma wrap32_small x : 0 <= x < 2 ^ 32 -> wrap32 x = x.
Proof. unfold wrap32. intros. by apply Z.mod_small. Qed.

Lemma wrap64_small x : 0 <= x < 2 ^ 64 -> wrap64 x = x.
Proof. unfold wrap64. intros. by apply Z.mod_small. Qed.

Lemma wrap32_fits x : wrap32 x = x <-> 0 <= x < 2 ^ 32.
Proof.
  split; [|apply wrap32_small].
  intros <-. apply wrap32_range.
Qed.

Lemma account_m_sequences t sd c :
  ChunkDescriptor.m_sequences (account t sd c) = ChunkDescriptor.m_sequences c.
Proof. by destruct t. Qed.

Lemma account_m_id t sd c :
  ChunkDescriptor.m_id (account t sd c) = ChunkDescriptor.m_id c.
Proof. by destruct t. Qed.

Lemma account_m_offset t sd c :
  ChunkDescriptor.m_offset (account t sd c) = ChunkDescriptor.m_offset c.
Proof. by destruct t. Qed.

Lemma account_m_byteSize t sd c :
  ChunkDescriptor.m_byteSize (account t sd c)
  = wrap64 (ChunkDescriptor.m_byteSize c + SequenceDescriptor.m_byteSize sd).
Proof. by destruct t. Qed.

Lemma account_m_numberOfSequences t sd c :
  ChunkDescriptor.m_numberOfSequences (account t sd c)
  = wrap64 (ChunkDescriptor.m_numberOfSequences c + 1).
Proof. by destruct t. Qed.

Lemma account_m_numberOfSamples t sd c :
  ChunkDescriptor.m_numberOfSamples (account t sd c)
  = wrap64 (ChunkDescriptor.m_numberOfSamples c + SequenceDescriptor.m_numberOfSamples sd).
Proof. by destruct t. Qed.

Lemma account_m_firstSamples t sd c :
  ChunkDescriptor.m_firstSamples (account t sd c)
  = if t then ChunkDescriptor.m_firstSamples c ++ [ChunkDescriptor.m_numberOfSamples c]
    else ChunkDescriptor.m_firstSamples c.
Proof. by destruct t. Qed.

Section Properties.

Variable CHUNKID_MAX : Z.

Lemma open_chunk_back pre c l :
  open_chunk CHUNKID_MAX (pre ++ [c]) l
  = (pre ++ [c; ChunkDescriptor.mk
                  (to_ChunkIdType CHUNKID_MAX (wrap64 (vector_size pre + 1)))
                  0 0 [] 0 0 []],
     mkLocals (S (length pre)),
     CHUNKID_MAX <? vector_size pre + 2).
Proof.
  unfold open_chunk, previousChunk. cbn [chunk].
  assert (Hlen : (length ((pre ++ [c]) ++ [ChunkDescriptor.ctor]) - 1)%nat
                 = length (pre ++ [c])) by apply back_position.
  rewrite Hlen. rewrite !alter_back.
  rewrite lookup_back.
  assert (Hp : length (pre ++ [c]) = S (length pre)) by (rewrite length_app; simpl; lia).
  rewrite Hp.
  assert (Hv : vector_size ((pre ++ [c]) ++ [ChunkDescriptor.ctor]) = vector_size pre + 2)
    by (unfold vector_size; rewrite !length_app; cbn [length]; lia).
  assert (Hv' : forall x, vector_size ((pre ++ [c]) ++ [x]) = vector_size pre + 2)
    by (intros x; unfold vector_size; rewrite !length_app; cbn [length]; lia).
  rewrite Hv, Hv'.
  replace (vector_size pre + 2 - 1) with (vector_size pre + 1) by lia.
  rewrite <- app_assoc. reflexivity.
Qed.

(** [AddSequence] with the last chunk [c] of the vector made explicit. *)
Lemma AddSequence_back idx pre c sd s e :
  Index.m_chunks idx = pre ++ [c] ->
  AddSequence CHUNKID_MAX idx sd s e =
    let sz := wrap64 (e - s) in
    if negb (wrap32 sz =? sz) then (idx, Raised SequenceByteSizeOverflow) else
    let sd' := SequenceDescriptor.set_m_byteSize (wrap32 sz) sd in
    let split := (0 <? ChunkDescriptor.m_byteSize c)
                 && (Index.m_maxChunkSize idx
                       <? wrap64 (ChunkDescriptor.m_byteSize c + wrap32 sz)) in
    let pre' := if split then pre ++ [c] else pre in
    let c0 := if split
              then ChunkDescriptor.mk
                     (to_ChunkIdType CHUNKID_MAX (wrap64 (vector_size pre + 1)))
                     0 0 [] 0 0 []
              else c in
    if split && (CHUNKID_MAX <? vector_size pre + 2)
    then (Index.set_m_chunks (pre' ++ [c0]) idx, Raised MaximumNumberOfChunksExceeded)
    else
    let c1 := account (Index.m_trackFirstSamples idx) sd' c0 in
    let idx1 := Index.set_m_chunks (pre' ++ [c1]) idx in
    let pos := vector_size (ChunkDescriptor.m_sequences c0) in
    if negb (Index.m_primary idx) && negb (wrap32 pos =? pos)
    then (idx1, Raised NumberOfSequencesOverflow)
    else
    let idx2 :=
      if negb (Index.m_primary idx)
      then Index.set_m_keyToSequenceInChunk
             (map_insert (m_sequence (SequenceDescriptor.m_key sd))
                         (wrap32 (ChunkDescriptor.m_id c0), wrap32 pos)
                         (Index.m_keyToSequenceInChunk idx)) idx1
      else idx1 in
    let off := wrap64 (s - ChunkDescriptor.m_offset c0) in
    if negb (wrap32 off =? off) then (idx2, Raised ChunkSizeOverflow) else
    (Index.set_m_chunks
       (pre' ++ [push_sequence (SequenceDescriptor.set_m_chunkOffsetBytes (wrap32 off) sd') c1])
       idx2,
     Returned).
Proof.
  intros Hc. unfold AddSequence. cbn zeta.
  cbn [SequenceDescriptor.m_byteSize SequenceDescriptor.set_m_byteSize].
  destruct (negb (wrap32 (wrap64 (e - s)) =? wrap64 (e - s))); [done|].
  rewrite (IsEmpty_snoc _ _ _ Hc). rewrite Hc.
  cbn [chunk]. rewrite back_position, lookup_back.
  destruct ((0 <? ChunkDescriptor.m_byteSize c)
            && (Index.m_maxChunkSize idx
                  <? wrap64 (ChunkDescriptor.m_byteSize c + wrap32 (wrap64 (e - s))))) eqn:Hsplit.
  - rewrite open_chunk_back. cbn [chunk andb].
    destruct (CHUNKID_MAX <? vector_size pre + 2).
    { f_equal. f_equal. by rewrite <- app_assoc. }
    replace (pre ++ [c; ChunkDescriptor.mk
                          (to_ChunkIdType CHUNKID_MAX (wrap64 (vector_size pre + 1)))
                          0 0 [] 0 0 []])
      with ((pre ++ [c]) ++ [ChunkDescriptor.mk
                          (to_ChunkIdType CHUNKID_MAX (wrap64 (vector_size pre + 1)))
                          0 0 [] 0 0 []]) by (by rewrite <- app_assoc).
    replace (S (length pre)) with (length (pre ++ [c]))
      by (rewrite length_app; simpl; lia).
    rewrite !alter_back, !lookup_back.
    rewrite account_m_sequences, account_m_id, account_m_offset.
    reflexivity.
  - cbn [andb chunk]. rewrite !alter_back, !lookup_back.
    rewrite account_m_sequences, account_m_id, account_m_offset.
    reflexivity.
Qed.

(** What a call that returned has done. *)
Lemma AddSequence_Returned idx sd s e idx' :
  AddSequence CHUNKID_MAX idx sd s e = (idx', Returned) ->
  exists pre c pre' c0,
    Index.m_chunks idx = pre ++ [c] /\
    0 <= wrap64 (e - s) < 2 ^ 32 /\
    ((pre' = pre /\ c0 = c /\
      (ChunkDescriptor.m_byteSize c <= 0 \/
       wrap64 (ChunkDescriptor.m_byteSize c + wrap64 (e - s)) <= Index.m_maxChunkSize idx))
     \/
     (pre' = pre ++ [c] /\
      c0 = ChunkDescriptor.mk
             (to_ChunkIdType CHUNKID_MAX (wrap64 (vector_size pre + 1))) 0 0 [] 0 0 [] /\
      0 < ChunkDescriptor.m_byteSize c /\
      Index.m_maxChunkSize idx < wrap64 (ChunkDescriptor.m_byteSize c + wrap64 (e - s)) /\
      vector_size pre + 2 <= CHUNKID_MAX)) /\
    (Index.m_primary idx = false ->
     0 <= vector_size (ChunkDescriptor.m_sequences c0) < 2 ^ 32) /\
    0 <= wrap64 (s - ChunkDescriptor.m_offset c0) < 2 ^ 32 /\
    idx' =
      Index.mk
        (pre' ++
         [push_sequence
            (SequenceDescriptor.mk (SequenceDescriptor.m_key sd)
               (SequenceDescriptor.m_numberOfSamples sd)
               (wrap64 (s - ChunkDescriptor.m_offset c0)) (wrap64 (e - s)))
            (account (Index.m_trackFirstSamples idx)
               (SequenceDescriptor.set_m_byteSize (wrap64 (e - s)) sd) c0)])
        (if Index.m_primary idx then Index.m_keyToSequenceInChunk idx
         else map_insert (m_sequence (SequenceDescriptor.m_key sd))
                (wrap32 (ChunkDescriptor.m_id c0),
                 vector_size (ChunkDescriptor.m_sequences c0))
                (Index.m_keyToSequenceInChunk idx))
        (Index.m_maxChunkSize idx) (Index.m_primary idx) (Index.m_trackFirstSamples idx).
Proof.
  intros H.
  destruct (Index.m_chunks idx) as [|c' cs] eqn:Hchunks using rev_ind.
  { unfold AddSequence in H. cbn zeta in H.
    destruct (negb _) in H; [done|].
    unfold Index.IsEmpty in H. rewrite Hchunks in H. done. }
  clear IHcs. rename cs into pre, c' into c.
  rewrite (AddSequence_back _ _ _ _ _ _ Hchunks) in H. cbn zeta in H.
  destruct (wrap32 (wrap64 (e - s)) =? wrap64 (e - s)) eqn:Hsz; [|done].
  apply Z.eqb_eq in Hsz. cbn [negb] in H.
  rewrite Hsz in H. apply wrap32_fits in Hsz.
  set (split := (0 <? ChunkDescriptor.m_byteSize c)
                && (Index.m_maxChunkSize idx
                      <? wrap64 (ChunkDescriptor.m_byteSize c + wrap64 (e - s)))) in *.
  set (pre' := if split then pre ++ [c] else pre) in *.
  set (c0 := if split
             then ChunkDescriptor.mk
                    (to_ChunkIdType CHUNKID_MAX (wrap64 (vector_size pre + 1))) 0 0 [] 0 0 []
             else c) in *.
  destruct (split && (CHUNKID_MAX <? vector_size pre + 2)) eqn:Hfull; [done|].
  set (pos := vector_size (ChunkDescriptor.m_sequences c0)) in *.
  destruct (negb (Index.m_primary idx) && negb (wrap32 pos =? pos)) eqn:Hpos; [done|].
  set (off := wrap64 (s - ChunkDescriptor.m_offset c0)) in *.
  destruct (wrap32 off =? off) eqn:Hoff; [|done].
  apply Z.eqb_eq in Hoff. cbn [negb] in H. rewrite Hoff in H.
  apply wrap32_fits in Hoff.
  injection H as <-.
  exists pre, c, pre', c0. split; [done|]. split; [done|].
  split.
  { subst pre' c0. destruct split eqn:Hs; subst split.
    - right. apply andb_prop in Hs as [H1 H2].
      apply Z.ltb_lt in H1. apply Z.ltb_lt in H2.
      cbn [andb] in Hfull. apply Z.ltb_ge in Hfull. done.
    - left. apply andb_false_iff in Hs as [H1|H2].
      + apply Z.ltb_ge in H1. auto.
      + apply Z.ltb_ge in H2. auto. }
  split.
  { intros Hp. rewrite Hp in Hpos. cbn [negb andb] in Hpos.
    apply negb_false_iff, Z.eqb_eq, wrap32_fits in Hpos. done. }
  split; [done|].
  unfold Index.set_m_chunks, Index.set_m_keyToSequenceInChunk.
  destruct (Index.m_primary idx) eqn:Hp; cbn [negb andb] in *.
  - reflexivity.
  - apply negb_false_iff, Z.eqb_eq in Hpos. rewrite Hpos. reflexivity.
Qed.

Lemma Built_maxChunkSize idx :
  Built CHUNKID_MAX idx -> 0 <= Index.m_maxChunkSize idx < 2 ^ 64.
Proof.
  induction 1 as [|idx sd s e idx' _ IH _ _ _ H]; [done|].
  by apply AddSequence_Returned in H
    as (pre & c & pre' & c0 & _ & _ & _ & _ & _ & ->).
Qed.

Lemma Built_nonempty idx : Built CHUNKID_MAX idx -> Index.m_chunks idx <> [].
Proof.
  destruct 1 as [|idx sd s e idx' _ _ _ _ H].
  - done.
  - apply AddSequence_Returned in H
      as (pre & c & pre' & c0 & _ & _ & _ & _ & _ & ->).
    cbn. by destruct pre'.
Qed.

Lemma chunk_size_ok_step maxChunkSize t sd sz off c0 :
  0 <= sz < 2 ^ 32 ->
  chunk_size_ok maxChunkSize c0 ->
  (ChunkDescriptor.m_byteSize c0 <= 0 \/
   wrap64 (ChunkDescriptor.m_byteSize c0 + sz) <= maxChunkSize) ->
  chunk_size_ok maxChunkSize
    (push_sequence
       (SequenceDescriptor.mk (SequenceDescriptor.m_key sd)
          (SequenceDescriptor.m_numberOfSamples sd) off sz)
       (account t (SequenceDescriptor.set_m_byteSize sz sd) c0)).
Proof.
  intros Hsz (Hb & Hrange & Hcap & Hzero) Hadmit.
  unfold chunk_size_ok, oversized_alone, push_sequence.
  cbn [ChunkDescriptor.m_byteSize ChunkDescriptor.m_sequences
       ChunkDescriptor.set_m_sequences].
  rewrite account_m_byteSize, account_m_sequences.
  cbn [SequenceDescriptor.m_byteSize SequenceDescriptor.set_m_byteSize].
  pose proof (wrap64_range (ChunkDescriptor.m_byteSize c0 + sz)) as Hw.
  split; [lia|]. split.
  { apply Forall_app. split; [done|]. by apply Forall_singleton. }
  assert (Hsmall : maxChunkSize < 2 ^ 32 -> ChunkDescriptor.m_byteSize c0 < 2 ^ 32).
  { intros Hm. destruct Hcap as [Hle|(zs & z & Hseq & _ & Hz & _)]; [lia|].
    rewrite Hseq in Hrange. apply Forall_app in Hrange as [_ Hr].
    rewrite Forall_singleton in Hr. lia. }
  destruct (decide (ChunkDescriptor.m_byteSize c0 = 0)) as [H0|Hne].
  - rewrite H0, Z.add_0_l, wrap64_small by lia. split.
    + destruct (decide (sz <= maxChunkSize)) as [Hle|Hgt]; [by left|].
      right. eexists _, _. split; [done|]. cbn. split; [|lia].
      apply Hzero; [lia|done].
    + intros Hm ->. apply Forall_app. split; [by apply Hzero|].
      by apply Forall_singleton.
  - destruct Hadmit as [Hle|Hle]; [lia|]. split; [by left|].
    intros Hm Heq. exfalso.
    specialize (Hsmall Hm).
    rewrite wrap64_small in Heq by lia. lia.
Qed.

Lemma Built_chunk_size_ok idx :
  Built CHUNKID_MAX idx ->
  Forall (chunk_size_ok (Index.m_maxChunkSize idx)) (Index.m_chunks idx).
Proof.
  induction 1 as [? ? ? ? Hmax|idx sd s e idx' HB IH _ _ _ H].
  - cbn. apply Forall_singleton. unfold chunk_size_ok, size_t in *. cbn.
    split; [lia|]. split; [done|]. split; [left; lia|done].
  - apply Built_maxChunkSize in HB as Hmax.
    apply AddSequence_Returned in H
      as (pre & c & pre' & c0 & Hc & Hsz & Hsplit & _ & _ & ->).
    cbn [Index.m_chunks Index.m_maxChunkSize].
    rewrite Hc in IH. apply Forall_app in IH as [IHpre IHc].
    rewrite Forall_singleton in IHc.
    destruct Hsplit as [(-> & -> & Hadmit)|(-> & -> & Hpos & Hgt & _)].
    + apply Forall_app. split; [done|]. apply Forall_singleton.
      by apply chunk_size_ok_step.
    + apply Forall_app. split.
      { apply Forall_app. split; [done|]. by apply Forall_singleton. }
      apply Forall_singleton. apply chunk_size_ok_step; [done| |left; cbn; lia].
      unfold chunk_size_ok. cbn.
      split; [lia|]. split; [done|]. split; [left; lia|done].
Qed.

(** C3 (amended): in an index built by [Reserve] and [AddSequence] calls
    that all returned, a chunk's byte size exceeds [m_maxChunkSize] only
    when the chunk ends with one sequence whose own byte size exceeds
    [m_maxChunkSize] and equals the byte size of the chunk; every sequence
    before it in that chunk has byte size zero, so the chunk holds exactly
    one sequence of nonzero size. *)
Theorem chunk_exceeds_cap_only_with_oversized_record idx c :
  Built CHUNKID_MAX idx ->
  c ∈ Index.m_chunks idx ->
  ChunkDescriptor.m_byteSize c <= Index.m_maxChunkSize idx \/
  exists zs s,
    ChunkDescriptor.m_sequences c = zs ++ [s] /\
    Forall (fun z => SequenceDescriptor.m_byteSize z = 0) zs /\
    SequenceDescriptor.m_byteSize s = ChunkDescriptor.m_byteSize c /\
    Index.m_maxChunkSize idx < SequenceDescriptor.m_byteSize s.
Proof.
  intros HB Hin.
  pose proof (Built_chunk_size_ok idx HB) as Hall.
  rewrite Forall_forall in Hall.
  destruct (Hall c Hin) as (_ & _ & Hcap & _). exact Hcap.
Qed.

(** ** Chunk ids and the chunk limit *)

Lemma to_ChunkIdType_small x :
  0 <= x <= CHUNKID_MAX -> to_ChunkIdType CHUNKID_MAX x = x.
Proof. unfold to_ChunkIdType. intros. apply Z.mod_small. lia. Qed.

(** The branch that opens a chunk raises when the vector outgrows
    [CHUNKID_MAX]; this holds in every state. *)
Lemma AddSequence_chunk_limit idx pre c sd s e :
  Index.m_chunks idx = pre ++ [c] ->
  0 <= wrap64 (e - s) < 2 ^ 32 ->
  0 < ChunkDescriptor.m_byteSize c ->
  Index.m_maxChunkSize idx < wrap64 (ChunkDescriptor.m_byteSize c + wrap64 (e - s)) ->
  CHUNKID_MAX < vector_size (Index.m_chunks idx) + 1 ->
  (AddSequence CHUNKID_MAX idx sd s e).2 = Raised MaximumNumberOfChunksExceeded.
Proof.
  intros Hc Hsz Hpos Hgt Hmax.
  rewrite (AddSequence_back _ _ _ _ _ _ Hc). cbn zeta.
  rewrite (wrap32_small _ Hsz), Z.eqb_refl. cbn [negb].
  apply Z.ltb_lt in Hpos, Hgt. rewrite Hpos, Hgt. cbn [andb].
  rewrite Hc in Hmax. unfold vector_size in *. rewrite length_app in Hmax.
  cbn [length] in Hmax.
  assert ((CHUNKID_MAX <? Z.of_nat (length pre) + 2) = true) as -> by (apply Z.ltb_lt; lia).
  reflexivity.
Qed.

Lemma Built_chunk_ids idx :
  1 <= CHUNKID_MAX < 2 ^ 64 ->
  Built CHUNKID_MAX idx ->
  vector_size (Index.m_chunks idx) <= CHUNKID_MAX /\
  forall (i : nat) c, Index.m_chunks idx !! i = Some c -> ChunkDescriptor.m_id c = Z.of_nat i.
Proof.
  intros HM. induction 1 as [|idx sd s e idx' HB [IHn IH] _ _ _ H].
  - cbn. split; [unfold vector_size; cbn; lia|].
    intros [|i] c Hi; cbn in Hi; [|done]. by injection Hi as <-.
  - apply AddSequence_Returned in H
      as (pre & c & pre' & c0 & Hc & Hsz & Hsplit & _ & _ & ->).
    cbn [Index.m_chunks]. rewrite Hc in IHn, IH.
    unfold vector_size in *. rewrite length_app in IHn. cbn [length] in IHn.
    assert (Hlast : ChunkDescriptor.m_id c0 = Z.of_nat (length pre') /\
                    Z.of_nat (length pre') + 1 <= CHUNKID_MAX /\
                    forall (i : nat) c', pre' !! i = Some c' ->
                                         ChunkDescriptor.m_id c' = Z.of_nat i).
    { destruct Hsplit as [(-> & -> & _)|(-> & -> & _ & _ & Hroom)].
      - split; [|split].
        + apply IH. by apply list_lookup_middle.
        + lia.
        + intros i c' Hi. apply IH. by apply lookup_app_l_Some.
      - rewrite length_app. cbn [length ChunkDescriptor.m_id].
        split; [|split].
        + rewrite wrap64_small by lia. rewrite to_ChunkIdType_small by lia. lia.
        + lia.
        + done. }
    destruct Hlast as (Hid & Hroom & Hpre).
    split.
    + rewrite length_app. cbn [length]. lia.
    + intros i c' Hi. apply lookup_app_Some in Hi as [Hi|[Hge Hi]]; [by apply Hpre|].
      destruct (i - length pre')%nat eqn:Hd; [|done].
      cbn in Hi. injection Hi as <-.
      unfold push_sequence. cbn [ChunkDescriptor.m_id ChunkDescriptor.set_m_sequences].
      rewrite account_m_id, Hid. f_equal. lia.
Qed.

(** C7: when the chunk-boundary branch would take the vector past
    [CHUNKID_MAX] the call raises "Maximum number of chunks exceeded"; so an
    index built from calls that all returned has at most [CHUNKID_MAX]
    chunks, and the id of every chunk is its position in [m_chunks],
    unchanged by the cast to [ChunkIdType]. *)
Theorem chunk_limit_is_enforced idx :
  1 <= CHUNKID_MAX < 2 ^ 64 ->
  Built CHUNKID_MAX idx ->
  (forall sd s e c,
     last (Index.m_chunks idx) = Some c ->
     0 <= wrap64 (e - s) < 2 ^ 32 ->
     0 < ChunkDescriptor.m_byteSize c ->
     Index.m_maxChunkSize idx < wrap64 (ChunkDescriptor.m_byteSize c + wrap64 (e - s)) ->
     CHUNKID_MAX < vector_size (Index.m_chunks idx) + 1 ->
     (AddSequence CHUNKID_MAX idx sd s e).2 = Raised MaximumNumberOfChunksExceeded) /\
  vector_size (Index.m_chunks idx) <= CHUNKID_MAX /\
  (forall (i : nat) c,
     Index.m_chunks idx !! i = Some c -> ChunkDescriptor.m_id c = Z.of_nat i).
Proof.
  intros HM HB. split; [|by apply Built_chunk_ids].
  intros sd s e c Hlast. apply last_Some in Hlast as [pre Hc].
  by apply AddSequence_chunk_limit with (pre := pre).
Qed.

(** ** The key map *)

Lemma map_insert_lookup k v (m : gmap Z (Z * Z)) k' :
  map_insert k v m !! k' =
    match m !! k' with
    | Some w => Some w
    | None => if decide (k = k') then Some v else None
    end.
Proof.
  unfold map_insert. destruct (m !! k) as [w|] eqn:Hk.
  - destruct (m !! k') as [w'|] eqn:Hk'; [done|].
    case_decide; [congruence|done].
  - destruct (decide (k = k')) as [<-|Hne].
    + by rewrite lookup_insert_eq, Hk.
    + rewrite lookup_insert_ne by done. by destruct (m !! k').
Qed.

Lemma NoDup_fmap_elem_eq {A B} (f : A -> B) (l : list A) x y :
  NoDup (f <$> l) -> x ∈ l -> y ∈ l -> f x = f y -> x = y.
Proof.
  induction l as [|a l IH]; intros Hnd Hx Hy Hf; [by apply elem_of_nil in Hx|].
  rewrite fmap_cons in Hnd. apply NoDup_cons in Hnd as [Hnotin Hnd].
  apply elem_of_cons in Hx as [->|Hx]; apply elem_of_cons in Hy as [->|Hy].
  - done.
  - exfalso. apply Hnotin. rewrite Hf. by apply list_elem_of_fmap_2.
  - exfalso. apply Hnotin. rewrite <- Hf. by apply list_elem_of_fmap_2.
  - by apply IH.
Qed.

Lemma resolve_elem_of idx loc s :
  resolve idx loc = Some s -> s ∈ all_sequences idx.
Proof.
  unfold resolve, all_sequences. intros H.
  apply bind_Some in H as (c & Hc & Hs).
  apply list_elem_of_bind. exists c. split.
  - by eapply list_elem_of_lookup_2.
  - by eapply list_elem_of_lookup_2.
Qed.

(** A returned call appends its descriptor to the descriptors in file order
    and keeps every location valid. *)
Lemma AddSequence_Returned_grows idx sd s e idx' :
  AddSequence CHUNKID_MAX idx sd s e = (idx', Returned) ->
  exists stored n,
    SequenceDescriptor.m_key stored = SequenceDescriptor.m_key sd /\
    all_sequences idx' = all_sequences idx ++ [stored] /\
    last (Index.m_chunks idx') ≫= (fun c => last (ChunkDescriptor.m_sequences c)) = Some stored /\
    (forall loc x, resolve idx loc = Some x -> resolve idx' loc = Some x) /\
    (forall c', last (Index.m_chunks idx') = Some c' ->
       resolve idx' (vector_size (Index.m_chunks idx') - 1, n) = Some stored /\
       Index.m_keyToSequenceInChunk idx' =
         if Index.m_primary idx then Index.m_keyToSequenceInChunk idx
         else map_insert (m_sequence (SequenceDescriptor.m_key sd))
                (wrap32 (ChunkDescriptor.m_id c'), n)
                (Index.m_keyToSequenceInChunk idx)).
Proof.
  intros H.
  apply AddSequence_Returned in H
    as (pre & c & pre' & c0 & Hc & Hsz & Hsplit & _ & _ & ->).
  exists (SequenceDescriptor.mk (SequenceDescriptor.m_key sd)
            (SequenceDescriptor.m_numberOfSamples sd)
            (wrap64 (s - ChunkDescriptor.m_offset c0)) (wrap64 (e - s))),
         (vector_size (ChunkDescriptor.m_sequences c0)).
  split; [reflexivity|].
  assert (Hall : (pre' ≫= ChunkDescriptor.m_sequences) ++ ChunkDescriptor.m_sequences c0
                 = all_sequences idx).
  { unfold all_sequences. rewrite Hc.
    destruct Hsplit as [(-> & -> & _)|(-> & -> & _)].
    - rewrite bind_app, bind_cons. cbn. by rewrite app_nil_r.
    - cbn. by rewrite app_nil_r. }
  split.
  { unfold all_sequences at 1. cbn [Index.m_chunks].
    rewrite bind_app, bind_cons. cbn [mbind list_bind]. rewrite app_nil_r.
    unfold push_sequence. cbn [ChunkDescriptor.m_sequences ChunkDescriptor.set_m_sequences].
    rewrite account_m_sequences. by rewrite app_assoc, Hall. }
  split.
  { cbn [Index.m_chunks]. rewrite last_snoc. cbn.
    by rewrite last_snoc. }
  split.
  { intros loc x. unfold resolve. cbn [Index.m_chunks]. rewrite Hc.
    intros Hx. apply bind_Some in Hx as (cx & Hcx & Hx).
    apply bind_Some.
    destruct Hsplit as [(-> & -> & _)|(-> & -> & _)].
    - apply lookup_app_Some in Hcx as [Hcx|[Hge Hcx]].
      + exists cx. split; [by apply lookup_app_l_Some|done].
      + destruct (Z.to_nat loc.1 - length pre)%nat eqn:Hd; [|done].
        cbn in Hcx. injection Hcx as <-.
        eexists. split.
        * apply list_lookup_middle. lia.
        * unfold push_sequence.
          cbn [ChunkDescriptor.m_sequences ChunkDescriptor.set_m_sequences].
          rewrite account_m_sequences. by apply lookup_app_l_Some.
    - exists cx. split; [by apply lookup_app_l_Some|done]. }
  intros c' Hlast. cbn [Index.m_chunks] in Hlast. rewrite last_snoc in Hlast.
  injection Hlast as <-.
  split.
  - unfold resolve, vector_size. cbn [Index.m_chunks fst snd].
    rewrite length_app. cbn [length].
    replace (Z.to_nat (Z.of_nat (length pre' + 1) - 1)) with (length pre') by lia.
    rewrite list_lookup_middle by done. cbn [mbind option_bind]. unfold push_sequence.
    cbn [ChunkDescriptor.m_sequences ChunkDescriptor.set_m_sequences].
    rewrite account_m_sequences, Nat2Z.id.
    by apply list_lookup_middle.
  - cbn [Index.m_keyToSequenceInChunk]. unfold push_sequence.
    cbn [ChunkDescriptor.m_id ChunkDescriptor.set_m_sequences].
    by rewrite account_m_id.
Qed.

Lemma Built_primary_key_map idx :
  Built CHUNKID_MAX idx ->
  Index.m_primary idx = true -> Index.m_keyToSequenceInChunk idx = ∅.
Proof.
  induction 1 as [|idx sd s e idx' HB IH _ _ _ H]; [done|].
  apply AddSequence_Returned in H
    as (pre & c & pre' & c0 & _ & _ & _ & _ & _ & ->).
  cbn. intros Hp. rewrite Hp. by apply IH.
Qed.

Lemma Built_key_map idx :
  1 <= CHUNKID_MAX < 2 ^ 32 ->
  Built CHUNKID_MAX idx ->
  Index.m_primary idx = false ->
  (forall k loc, Index.m_keyToSequenceInChunk idx !! k = Some loc ->
     exists x, resolve idx loc = Some x /\ m_sequence (SequenceDescriptor.m_key x) = k) /\
  (forall x, x ∈ all_sequences idx ->
     is_Some (Index.m_keyToSequenceInChunk idx
                !! m_sequence (SequenceDescriptor.m_key x))).
Proof.
  intros HM. induction 1 as [|idx sd s e idx' HB IH Hn Hs He H].
  - intros _. cbn. split.
    + intros k loc Hk. by rewrite lookup_empty in Hk.
    + intros x Hx. unfold all_sequences in Hx. cbn in Hx. by inversion Hx.
  - assert (HB' : Built CHUNKID_MAX idx')
      by exact (Built_AddSequence _ _ _ _ _ _ HB Hn Hs He H).
    assert (Hprim : Index.m_primary idx' = Index.m_primary idx).
    { by apply AddSequence_Returned in H
        as (pre & c & pre' & c0 & _ & _ & _ & _ & _ & ->). }
    rewrite Hprim. intros Hp. specialize (IH Hp) as [IH1 IH2].
    destruct (Built_chunk_ids idx' ltac:(lia) HB') as [Hcount Hids].
    pose proof (Built_nonempty idx' HB') as Hne.
    destruct (last (Index.m_chunks idx')) as [c'|] eqn:Hlast;
      [|by apply last_None in Hlast].
    apply AddSequence_Returned_grows in H
      as (stored & n & Hkey & Hall & _ & Hmono & Hnew).
    destruct (Hnew c' Hlast) as [Hres Hkm]. rewrite Hp in Hkm.
    assert (Hid : wrap32 (ChunkDescriptor.m_id c') = vector_size (Index.m_chunks idx') - 1).
    { rewrite last_lookup in Hlast. rewrite (Hids _ _ Hlast).
      unfold vector_size in *.
      destruct (Index.m_chunks idx'); [done|]. cbn [length pred] in *.
      rewrite wrap32_small by lia. lia. }
    rewrite Hid in Hkm. rewrite Hkm. split.
    + intros k loc. rewrite map_insert_lookup.
      destruct (Index.m_keyToSequenceInChunk idx !! k) as [w|] eqn:Hk.
      * intros [= <-]. destruct (IH1 _ _ Hk) as (x & Hx & Hxk).
        exists x. split; [by apply Hmono|done].
      * case_decide as Hd; [|done]. intros [= <-].
        exists stored. split; [done|]. by rewrite Hkey.
    + intros x. rewrite Hall, elem_of_app, list_elem_of_singleton.
      rewrite map_insert_lookup. intros [Hx| ->].
      * destruct (IH2 _ Hx) as [w Hw]. rewrite Hw. by eexists.
      * rewrite Hkey.
        destruct (Index.m_keyToSequenceInChunk idx
                    !! m_sequence (SequenceDescriptor.m_key sd)); [by eexists|].
        rewrite decide_True by done. by eexists.
Qed.

(** ** The first-sample table *)

Lemma sum_samples_snoc l x :
  sum_samples (l ++ [x]) = sum_samples l + SequenceDescriptor.m_numberOfSamples x.
Proof.
  unfold sum_samples. induction l as [|a l IH]; cbn; [lia|].
  rewrite IH. lia.
Qed.

Lemma sum_samples_bounds l :
  Forall (fun z => uint32_t (SequenceDescriptor.m_numberOfSamples z)) l ->
  0 <= sum_samples l <= Z.of_nat (length l) * (2 ^ 32 - 1).
Proof.
  unfold sum_samples, uint32_t. induction 1 as [|a l Ha _ IH]; [cbn; lia|].
  cbn [foldr length]. lia.
Qed.

Lemma wrap64_add_l a b : wrap64 (wrap64 a + b) = wrap64 (a + b).
Proof. unfold wrap64. by rewrite Zplus_mod_idemp_l. Qed.

Lemma first_samples_ok_step sd stored c0 :
  SequenceDescriptor.m_numberOfSamples stored = SequenceDescriptor.m_numberOfSamples sd ->
  uint32_t (SequenceDescriptor.m_numberOfSamples sd) ->
  first_samples_ok c0 ->
  first_samples_ok (push_sequence stored (account true sd c0)).
Proof.
  intros Hn Hpos (Hlen & Hfs & Htot & Hnn).
  unfold first_samples_ok, push_sequence.
  cbn [ChunkDescriptor.m_firstSamples ChunkDescriptor.m_sequences
       ChunkDescriptor.m_numberOfSamples ChunkDescriptor.set_m_sequences].
  rewrite account_m_sequences, account_m_firstSamples, account_m_numberOfSamples.
  split; [|split; [|split]].
  - rewrite !length_app. cbn. lia.
  - intros i x Hi. apply lookup_app_Some in Hi as [Hi|[Hge Hi]].
    + rewrite take_app_le; [by apply Hfs|].
      apply lookup_lt_Some in Hi. lia.
    + destruct (i - length (ChunkDescriptor.m_firstSamples c0))%nat eqn:Hd; [|done].
      cbn in Hi. injection Hi as <-.
      assert (i = length (ChunkDescriptor.m_sequences c0)) as -> by lia.
      rewrite take_app_le by lia. rewrite firstn_all. exact Htot.
  - rewrite sum_samples_snoc, Htot, Hn. apply wrap64_add_l.
  - apply Forall_app. split; [done|]. apply Forall_singleton. by rewrite Hn.
Qed.

Lemma Built_first_samples idx :
  Built CHUNKID_MAX idx ->
  Index.m_trackFirstSamples idx = true ->
  Forall first_samples_ok (Index.m_chunks idx).
Proof.
  assert (Hfresh : forall id, first_samples_ok (ChunkDescriptor.mk id 0 0 [] 0 0 [])).
  { intros id. unfold first_samples_ok. cbn. repeat split; done. }
  induction 1 as [|idx sd s e idx' HB IH Hn _ _ H].
  - intros _. cbn. apply Forall_singleton. apply Hfresh.
  - apply AddSequence_Returned in H
      as (pre & c & pre' & c0 & Hc & Hsz & Hsplit & _ & _ & ->).
    cbn [Index.m_chunks Index.m_trackFirstSamples]. intros Ht.
    specialize (IH Ht). rewrite Hc in IH. rewrite Ht.
    apply Forall_app in IH as [IHpre IHc]. rewrite Forall_singleton in IHc.
    apply Forall_app. split.
    + destruct Hsplit as [(-> & _)|(-> & _)]; [done|].
      apply Forall_app. split; [done|]. by apply Forall_singleton.
    + apply Forall_singleton. apply first_samples_ok_step; [done|done|].
      destruct Hsplit as [(_ & -> & _)|(_ & -> & _)]; [done|apply Hfresh].
Qed.

(** C8 (amended): with [m_trackFirstSamples] set, in an index built from
    calls that all returned, the first-sample table of every chunk has one
    entry per sequence, and entry [i] is the value the [size_t] counter
    [m_numberOfSamples] of the chunk held before the call that added
    sequence [i]: the sum of [m_numberOfSamples] over the sequences at
    positions [0..i-1] of the chunk, reduced modulo 2^64.  It is that sum
    itself whenever the sum is below 2^64, as it is at every position up to
    2^32. *)
Theorem first_samples_are_prefix_sums idx c (i : nat) :
  Built CHUNKID_MAX idx ->
  Index.m_trackFirstSamples idx = true ->
  c ∈ Index.m_chunks idx ->
  (i < length (ChunkDescriptor.m_sequences c))%nat ->
  length (ChunkDescriptor.m_firstSamples c) = length (ChunkDescriptor.m_sequences c) /\
  ChunkDescriptor.m_firstSamples c !! i
    = Some (wrap64 (sum_samples (take i (ChunkDescriptor.m_sequences c)))) /\
  (sum_samples (take i (ChunkDescriptor.m_sequences c)) < 2 ^ 64 \/ Z.of_nat i <= 2 ^ 32 ->
   ChunkDescriptor.m_firstSamples c !! i
     = Some (sum_samples (take i (ChunkDescriptor.m_sequences c)))).
Proof.
  intros HB Ht Hin Hi.
  pose proof (Built_first_samples idx HB Ht) as Hall.
  rewrite Forall_forall in Hall.
  destruct (Hall c Hin) as (Hlen & Hfs & _ & Hnn).
  split; [done|].
  destruct (ChunkDescriptor.m_firstSamples c !! i) as [x|] eqn:Hx.
  - rewrite (Hfs _ _ Hx). split; [done|].
    pose proof (sum_samples_bounds (take i (ChunkDescriptor.m_sequences c))
                  ltac:(by apply Forall_take)) as Hb.
    rewrite length_take in Hb.
    intros Hfit. rewrite wrap64_small; [done|].
    destruct Hfit as [Hlt|Hle]; [lia|]. nia.
  - apply lookup_ge_None in Hx. lia.
Qed.

(** ** Failing calls *)

Lemma wrap64_succ_ne n : wrap64 (n + 1) <> n.
Proof.
  unfold wrap64. intros H.
  pose proof (Z.mod_pos_bound (n + 1) (2 ^ 64) ltac:(lia)) as Hb.
  destruct (decide (n + 1 < 2 ^ 64)) as [Hlt|Hge].
  - rewrite Z.mod_small in H by lia. lia.
  - assert (n + 1 = 2 ^ 64) as Heq by lia.
    rewrite Heq, Z.mod_same in H by lia. lia.
Qed.

Lemma snoc_account_ne t sd (pre pre' : list ChunkDescriptor.t) c c0 :
  (pre' = pre /\ c0 = c) \/ pre' = pre ++ [c] ->
  pre' ++ [account t sd c0] <> pre ++ [c].
Proof.
  intros [[-> ->]| ->] Heq.
  - apply app_inv_head in Heq. injection Heq as Heq.
    apply (f_equal ChunkDescriptor.m_numberOfSequences) in Heq.
    rewrite account_m_numberOfSequences in Heq. by apply wrap64_succ_ne in Heq.
  - apply (f_equal length) in Heq. rewrite !length_app in Heq. cbn in Heq. lia.
Qed.

(** C9: a call that raises "Chunk size overflows uint32_t type." leaves an
    index in which the owning chunk (the last chunk, or the chunk the call
    opened) has the record added to its byte size, sequence count and sample
    count, its first-sample table extended when that is tracked, and its
    sequence collection as before; in a secondary index the key of the
    record is in the key map: with the location it already had, or else
    with the owning chunk's id and the position the record would have
    taken.  Of all errors only "Sequence byte size overflows uint32_t type."
    leaves the index as it was. *)
Theorem failing_call_is_not_undone idx pre c sd s e :
  Index.m_chunks idx = pre ++ [c] ->
  ((AddSequence CHUNKID_MAX idx sd s e).2 = Raised ChunkSizeOverflow ->
   exists pre' c0 c1 km',
     (AddSequence CHUNKID_MAX idx sd s e).1
       = Index.mk (pre' ++ [c1]) km' (Index.m_maxChunkSize idx)
                  (Index.m_primary idx) (Index.m_trackFirstSamples idx) /\
     ((~ (0 < ChunkDescriptor.m_byteSize c /\
          Index.m_maxChunkSize idx < wrap64 (ChunkDescriptor.m_byteSize c + wrap64 (e - s))) /\
       pre' = pre /\ c0 = c) \/
      ((0 < ChunkDescriptor.m_byteSize c /\
        Index.m_maxChunkSize idx < wrap64 (ChunkDescriptor.m_byteSize c + wrap64 (e - s))) /\
       pre' = pre ++ [c] /\
       c0 = ChunkDescriptor.mk
              (to_ChunkIdType CHUNKID_MAX (wrap64 (vector_size pre + 1))) 0 0 [] 0 0 [])) /\
     ChunkDescriptor.m_id c1 = ChunkDescriptor.m_id c0 /\
     ChunkDescriptor.m_offset c1 = ChunkDescriptor.m_offset c0 /\
     ChunkDescriptor.m_byteSize c1 = wrap64 (ChunkDescriptor.m_byteSize c0 + wrap64 (e - s)) /\
     ChunkDescriptor.m_numberOfSequences c1
       = wrap64 (ChunkDescriptor.m_numberOfSequences c0 + 1) /\
     ChunkDescriptor.m_numberOfSamples c1
       = wrap64 (ChunkDescriptor.m_numberOfSamples c0
                 + SequenceDescriptor.m_numberOfSamples sd) /\
     ChunkDescriptor.m_firstSamples c1
       = (if Index.m_trackFirstSamples idx
          then ChunkDescriptor.m_firstSamples c0 ++ [ChunkDescriptor.m_numberOfSamples c0]
          else ChunkDescriptor.m_firstSamples c0) /\
     ChunkDescriptor.m_sequences c1 = ChunkDescriptor.m_sequences c0 /\
     (Index.m_primary idx = true -> km' = Index.m_keyToSequenceInChunk idx) /\
     (Index.m_primary idx = false ->
      forall k,
        km' !! k
        = match Index.m_keyToSequenceInChunk idx !! k with
          | Some location => Some location
          | None =>
            if decide (k = m_sequence (SequenceDescriptor.m_key sd))
            then Some (wrap32 (ChunkDescriptor.m_id c0),
                       vector_size (ChunkDescriptor.m_sequences c0))
            else None
          end)) /\
  (forall err,
     (AddSequence CHUNKID_MAX idx sd s e).2 = Raised err ->
     ((AddSequence CHUNKID_MAX idx sd s e).1 = idx <-> err = SequenceByteSizeOverflow)).
Proof.
  intros Hc. rewrite (AddSequence_back _ _ _ _ _ _ Hc). cbn zeta.
  destruct (wrap32 (wrap64 (e - s)) =? wrap64 (e - s)) eqn:Hsz; cbn [negb].
  2:{ cbn [fst snd]. split; [done|]. intros err [= <-]. done. }
  apply Z.eqb_eq in Hsz. rewrite Hsz.
  destruct ((0 <? ChunkDescriptor.m_byteSize c)
            && (Index.m_maxChunkSize idx
                  <? wrap64 (ChunkDescriptor.m_byteSize c + wrap64 (e - s)))) eqn:Hsplit.
  - (* a chunk is opened *)
    apply andb_true_iff in Hsplit as [Hpos%Z.ltb_lt Hcap%Z.ltb_lt].
    cbn [andb].
    set (c0 := ChunkDescriptor.mk
                 (to_ChunkIdType CHUNKID_MAX (wrap64 (vector_size pre + 1))) 0 0 [] 0 0 []).
    destruct (CHUNKID_MAX <? vector_size pre + 2).
    { cbn [fst snd]. split; [done|]. intros err [= <-]. split; [|done].
      intros Heq. apply (f_equal Index.m_chunks) in Heq. cbn in Heq. rewrite Hc in Heq.
      apply (f_equal length) in Heq. rewrite !length_app in Heq. cbn in Heq. lia. }
    set (pos := vector_size (ChunkDescriptor.m_sequences c0)).
    destruct (negb (Index.m_primary idx) && negb (wrap32 pos =? pos)) eqn:Hloc.
    { cbn [fst snd]. split; [done|]. intros err [= <-]. split; [|done].
      intros Heq. apply (f_equal Index.m_chunks) in Heq. cbn in Heq. rewrite Hc in Heq.
      exfalso; refine (snoc_account_ne _ _ pre (pre ++ [c]) c c0 _ Heq); by right. }
    set (off := wrap64 (s - ChunkDescriptor.m_offset c0)).
    destruct (wrap32 off =? off) eqn:Hoff; cbn [negb fst snd].
    { split; [done|]. intros err [=]. }
    split.
    + intros _.
      exists (pre ++ [c]), c0,
        (account (Index.m_trackFirstSamples idx)
           (SequenceDescriptor.set_m_byteSize (wrap64 (e - s)) sd) c0),
        (if Index.m_primary idx then Index.m_keyToSequenceInChunk idx
         else map_insert (m_sequence (SequenceDescriptor.m_key sd))
                (wrap32 (ChunkDescriptor.m_id c0), wrap32 pos)
                (Index.m_keyToSequenceInChunk idx)).
      split; [destruct idx as [? ? ? pr ?]; by destruct pr|].
      split; [right; done|].
      rewrite account_m_id, account_m_offset, account_m_byteSize,
              account_m_numberOfSequences, account_m_numberOfSamples,
              account_m_firstSamples, account_m_sequences.
      do 7 (split; [reflexivity|]).
      split; [by intros ->|].
      intros Hp k. rewrite Hp. rewrite map_insert_lookup.
      destruct (Index.m_keyToSequenceInChunk idx !! k); [done|].
      destruct (decide (m_sequence (SequenceDescriptor.m_key sd) = k)) as [->|Hne].
      * by rewrite decide_True.
      * by rewrite decide_False.
    + intros err [= <-]. split; [|done].
      intros Heq. apply (f_equal Index.m_chunks) in Heq. rewrite Hc in Heq.
      destruct (negb (Index.m_primary idx)); cbn in Heq;
        (exfalso; refine (snoc_account_ne _ _ pre (pre ++ [c]) c c0 _ Heq); by right).
  - (* the record goes to the last chunk *)
    assert (Hno : ~ (0 < ChunkDescriptor.m_byteSize c /\
                     Index.m_maxChunkSize idx
                     < wrap64 (ChunkDescriptor.m_byteSize c + wrap64 (e - s)))).
    { intros [Hpos%Z.ltb_lt Hcap%Z.ltb_lt]. by rewrite Hpos, Hcap in Hsplit. }
    cbn [andb].
    set (pos := vector_size (ChunkDescriptor.m_sequences c)).
    destruct (negb (Index.m_primary idx) && negb (wrap32 pos =? pos)) eqn:Hloc.
    { cbn [fst snd]. split; [done|]. intros err [= <-]. split; [|done].
      intros Heq. apply (f_equal Index.m_chunks) in Heq. cbn in Heq. rewrite Hc in Heq.
      exfalso; refine (snoc_account_ne _ _ pre pre c c _ Heq); by left. }
    set (off := wrap64 (s - ChunkDescriptor.m_offset c)).
    destruct (wrap32 off =? off) eqn:Hoff; cbn [negb fst snd].
    { split; [done|]. intros err [=]. }
    split.
    + intros _.
      exists pre, c,
        (account (Index.m_trackFirstSamples idx)
           (SequenceDescriptor.set_m_byteSize (wrap64 (e - s)) sd) c),
        (if Index.m_primary idx then Index.m_keyToSequenceInChunk idx
         else map_insert (m_sequence (SequenceDescriptor.m_key sd))
                (wrap32 (ChunkDescriptor.m_id c), wrap32 pos)
                (Index.m_keyToSequenceInChunk idx)).
      split; [destruct idx as [? ? ? pr ?]; by destruct pr|].
      split; [left; done|].
      rewrite account_m_id, account_m_offset, account_m_byteSize,
              account_m_numberOfSequences, account_m_numberOfSamples,
              account_m_firstSamples, account_m_sequences.
      do 7 (split; [reflexivity|]).
      split; [by intros ->|].
      intros Hp k. rewrite Hp. rewrite Hp in Hloc. cbn [negb andb] in Hloc.
      apply negb_false_iff, Z.eqb_eq in Hloc. rewrite Hloc.
      rewrite map_insert_lookup.
      destruct (Index.m_keyToSequenceInChunk idx !! k); [done|].
      destruct (decide (m_sequence (SequenceDescriptor.m_key sd) = k)) as [->|Hne].
      * by rewrite decide_True.
      * by rewrite decide_False.
    + intros err [= <-]. split; [|done].
      intros Heq. apply (f_equal Index.m_chunks) in Heq. rewrite Hc in Heq.
      destruct (negb (Index.m_primary idx)); cbn in Heq;
        (exfalso; refine (snoc_account_ne _ _ pre pre c c _ Heq); by left).
Qed.

Lemma AddSequence_empty idx sd s e :
  Index.m_chunks idx = [] ->
  AddSequence CHUNKID_MAX idx sd s e =
    (idx, if negb (wrap32 (wrap64 (e - s)) =? wrap64 (e - s))
          then Raised SequenceByteSizeOverflow else AssertionFailed).
Proof.
  intros Hc. unfold AddSequence, Index.IsEmpty. cbn zeta. rewrite Hc.
  cbn [SequenceDescriptor.m_byteSize SequenceDescriptor.set_m_byteSize].
  by destruct (negb _).
Qed.

Lemma snoc_cases {A} (l : list A) : l = [] \/ exists pre c, l = pre ++ [c].
Proof. destruct l as [|c pre _] using rev_ind; eauto. Qed.

(** The key map plays no part in whether a call returns or raises. *)
Lemma AddSequence_outcome_key_map idx km sd s e :
  (AddSequence CHUNKID_MAX (Index.set_m_keyToSequenceInChunk km idx) sd s e).2
  = (AddSequence CHUNKID_MAX idx sd s e).2.
Proof.
  destruct (snoc_cases (Index.m_chunks idx)) as [Hc|(pre & c & Hc)].
  - by rewrite !AddSequence_empty.
  - rewrite (AddSequence_back idx pre c) by done.
    rewrite (AddSequence_back (Index.set_m_keyToSequenceInChunk km idx) pre c) by done.
    cbn zeta. cbn [Index.set_m_keyToSequenceInChunk Index.m_maxChunkSize Index.m_primary
                   Index.m_trackFirstSamples].
    repeat match goal with
           | |- context [if ?b then _ else _] => destruct b; try reflexivity
           end.
Qed.

Lemma AddSequence_present_key idx sd s e loc :
  Index.m_keyToSequenceInChunk idx !! m_sequence (SequenceDescriptor.m_key sd) = Some loc ->
  Index.m_keyToSequenceInChunk (AddSequence CHUNKID_MAX idx sd s e).1
  = Index.m_keyToSequenceInChunk idx.
Proof.
  intros Hk.
  destruct (snoc_cases (Index.m_chunks idx)) as [Hc|(pre & c & Hc)].
  - by rewrite AddSequence_empty.
  - rewrite (AddSequence_back idx pre c) by done. cbn zeta.
    unfold map_insert. rewrite Hk.
    repeat match goal with
           | |- context [if ?b then _ else _] => destruct b; try reflexivity
           end.
Qed.

(** C10: in a secondary index, a call whose key is already in the key map
    leaves the map as it is, so the key keeps its earlier location; the
    presence of the key changes nothing about whether the call returns; and
    when it returns, its descriptor is the new last element of the owning
    chunk and is counted in the three totals of that chunk. *)
Theorem duplicate_key_keeps_first_location idx sd s e loc :
  Index.m_primary idx = false ->
  Index.m_keyToSequenceInChunk idx !! m_sequence (SequenceDescriptor.m_key sd) = Some loc ->
  Index.m_keyToSequenceInChunk (AddSequence CHUNKID_MAX idx sd s e).1
    = Index.m_keyToSequenceInChunk idx /\
  (AddSequence CHUNKID_MAX idx sd s e).2
    = (AddSequence CHUNKID_MAX
         (Index.set_m_keyToSequenceInChunk
            (delete (m_sequence (SequenceDescriptor.m_key sd))
                    (Index.m_keyToSequenceInChunk idx)) idx) sd s e).2 /\
  ((AddSequence CHUNKID_MAX idx sd s e).2 = Returned ->
   exists pre c pre' c0 c1 stored,
     Index.m_chunks idx = pre ++ [c] /\
     ((pre' = pre /\ c0 = c) \/
      (pre' = pre ++ [c] /\
       c0 = ChunkDescriptor.mk
              (to_ChunkIdType CHUNKID_MAX (wrap64 (vector_size pre + 1))) 0 0 [] 0 0 [])) /\
     Index.m_chunks (AddSequence CHUNKID_MAX idx sd s e).1 = pre' ++ [c1] /\
     ChunkDescriptor.m_sequences c1 = ChunkDescriptor.m_sequences c0 ++ [stored] /\
     SequenceDescriptor.m_key stored = SequenceDescriptor.m_key sd /\
     SequenceDescriptor.m_numberOfSamples stored = SequenceDescriptor.m_numberOfSamples sd /\
     ChunkDescriptor.m_byteSize c1
       = wrap64 (ChunkDescriptor.m_byteSize c0 + SequenceDescriptor.m_byteSize stored) /\
     ChunkDescriptor.m_numberOfSequences c1
       = wrap64 (ChunkDescriptor.m_numberOfSequences c0 + 1) /\
     ChunkDescriptor.m_numberOfSamples c1
       = wrap64 (ChunkDescriptor.m_numberOfSamples c0
                 + SequenceDescriptor.m_numberOfSamples sd)).
Proof.
  intros Hp Hk. split; [by eapply AddSequence_present_key|].
  split; [by rewrite AddSequence_outcome_key_map|].
  intros Hret.
  destruct (AddSequence CHUNKID_MAX idx sd s e) as [idx' out] eqn:H.
  cbn [fst snd] in *. subst out.
  apply AddSequence_Returned in H
    as (pre & c & pre' & c0 & Hc & Hsz & Hsplit & _ & _ & ->).
  eexists pre, c, pre', c0, _, _. split; [done|]. split.
  { destruct Hsplit as [(-> & -> & _)|(-> & -> & _)]; auto. }
  split; [reflexivity|].
  unfold push_sequence.
  cbn [ChunkDescriptor.m_sequences ChunkDescriptor.m_byteSize
       ChunkDescriptor.m_numberOfSequences ChunkDescriptor.m_numberOfSamples
       ChunkDescriptor.set_m_sequences].
  rewrite account_m_sequences, account_m_byteSize, account_m_numberOfSequences,
          account_m_numberOfSamples.
  repeat split.
Qed.

(** ** The two 32-bit fields of a descriptor *)

(** C5 (amended): for a call with [startOffsetInFile <= endOffsetInFile] on
    an index whose last chunk starts at or before [startOffsetInFile]:
    "Sequence byte size overflows uint32_t type." is raised exactly when
    [endOffsetInFile - startOffsetInFile] does not fit in 32 bits; and
    unless the call raises "Maximum number of chunks exceeded" or "Number of
    sequences overflow the chunk capacity", it raises one of the two size
    errors exactly when that difference or [startOffsetInFile -
    chunk->m_offset] of the owning chunk does not fit in 32 bits, and
    otherwise returns with exactly these two values in [m_byteSize] and
    [m_chunkOffsetBytes] of the stored descriptor. *)
Theorem size_errors_and_stored_fields idx pre c sd s e :
  Index.m_chunks idx = pre ++ [c] ->
  0 <= s -> s <= e -> e < 2 ^ 64 ->
  0 <= ChunkDescriptor.m_offset c <= s ->
  ((AddSequence CHUNKID_MAX idx sd s e).2 = Raised SequenceByteSizeOverflow
   <-> 2 ^ 32 <= e - s) /\
  ((AddSequence CHUNKID_MAX idx sd s e).2 <> Raised MaximumNumberOfChunksExceeded ->
   (AddSequence CHUNKID_MAX idx sd s e).2 <> Raised NumberOfSequencesOverflow ->
   exists owner,
     last (Index.m_chunks (AddSequence CHUNKID_MAX idx sd s e).1) = Some owner /\
     (((AddSequence CHUNKID_MAX idx sd s e).2 = Raised SequenceByteSizeOverflow \/
       (AddSequence CHUNKID_MAX idx sd s e).2 = Raised ChunkSizeOverflow)
      <-> (2 ^ 32 <= e - s \/ 2 ^ 32 <= s - ChunkDescriptor.m_offset owner)) /\
     ((e - s < 2 ^ 32 /\ s - ChunkDescriptor.m_offset owner < 2 ^ 32) ->
      (AddSequence CHUNKID_MAX idx sd s e).2 = Returned /\
      exists stored,
        last (ChunkDescriptor.m_sequences owner) = Some stored /\
        SequenceDescriptor.m_key stored = SequenceDescriptor.m_key sd /\
        SequenceDescriptor.m_byteSize stored = e - s /\
        SequenceDescriptor.m_chunkOffsetBytes stored
          = s - ChunkDescriptor.m_offset owner)).
Proof.
  intros Hc Hs Hse He Hoff.
  rewrite (AddSequence_back _ _ _ _ _ _ Hc). cbn zeta.
  rewrite (wrap64_small (e - s)) by lia.
  destruct (wrap32 (e - s) =? e - s) eqn:Hsz; cbn [negb fst snd].
  2:{ apply Z.eqb_neq in Hsz. rewrite wrap32_fits in Hsz.
      split; [split; [lia|done]|].
      intros _ _. exists c. rewrite Hc, last_snoc. split; [done|].
      split; [split; [lia|auto]|]. lia. }
  apply Z.eqb_eq in Hsz. rewrite Hsz. apply wrap32_fits in Hsz.
  set (split := (0 <? ChunkDescriptor.m_byteSize c)
                && (Index.m_maxChunkSize idx
                      <? wrap64 (ChunkDescriptor.m_byteSize c + (e - s)))).
  set (pre' := if split then pre ++ [c] else pre).
  set (c0 := if split
             then ChunkDescriptor.mk
                    (to_ChunkIdType CHUNKID_MAX (wrap64 (vector_size pre + 1))) 0 0 [] 0 0 []
             else c).
  assert (Hoff0 : 0 <= ChunkDescriptor.m_offset c0 <= s).
  { subst c0. destruct split; cbn; lia. }
  rewrite (wrap64_small (s - ChunkDescriptor.m_offset c0)) by lia.
  destruct (split && (CHUNKID_MAX <? vector_size pre + 2)); cbn [fst snd].
  { split; [split; [done|lia]|]. done. }
  destruct (negb (Index.m_primary idx)
            && negb (wrap32 (vector_size (ChunkDescriptor.m_sequences c0))
                     =? vector_size (ChunkDescriptor.m_sequences c0))); cbn [fst snd].
  { split; [split; [done|lia]|]. done. }
  destruct (wrap32 (s - ChunkDescriptor.m_offset c0) =? s - ChunkDescriptor.m_offset c0)
    eqn:Hfit; cbn [negb fst snd].
  - apply Z.eqb_eq, wrap32_fits in Hfit.
    split; [split; [done|lia]|]. intros _ _.
    eexists. split.
    { destruct (negb (Index.m_primary idx)); cbn [Index.m_chunks Index.set_m_chunks];
        apply last_snoc. }
    unfold push_sequence.
    cbn [ChunkDescriptor.m_offset ChunkDescriptor.m_sequences ChunkDescriptor.set_m_sequences].
    rewrite account_m_offset, account_m_sequences.
    split; [split; [intros [?|?]; done|lia]|].
    intros _. split; [done|]. eexists. split; [apply last_snoc|].
    cbn. rewrite wrap32_small by lia. done.
  - apply Z.eqb_neq in Hfit. rewrite wrap32_fits in Hfit.
    split; [split; [done|lia]|]. intros _ _.
    eexists. split.
    { destruct (negb (Index.m_primary idx));
        cbn [Index.m_chunks Index.set_m_chunks Index.set_m_keyToSequenceInChunk];
        apply last_snoc. }
    rewrite account_m_offset.
    split; [split; [lia|auto]|]. lia.
Qed.

(** ** Offsets within a chunk *)

Lemma BuiltContiguous_Built idx pos :
  BuiltContiguous CHUNKID_MAX idx pos -> Built CHUNKID_MAX idx /\ size_t pos.
Proof.
  induction 1 as [|idx pos sd e idx' _ [IHB IHp] Hn Hle He H].
  - split; [by constructor|]. unfold size_t. lia.
  - split; [|done]. exact (Built_AddSequence _ _ _ _ _ _ IHB Hn IHp He H).
Qed.

Lemma Built_chunkOffsetBytes_nonneg idx :
  Built CHUNKID_MAX idx ->
  Forall (fun c => Forall (fun x => 0 <= SequenceDescriptor.m_chunkOffsetBytes x)
                          (ChunkDescriptor.m_sequences c))
         (Index.m_chunks idx).
Proof.
  induction 1 as [|idx sd s e idx' HB IH _ _ _ H].
  - cbn. by apply Forall_singleton.
  - apply AddSequence_Returned in H
      as (pre & c & pre' & c0 & Hc & _ & Hsplit & _ & Hoff & ->).
    cbn [Index.m_chunks]. rewrite Hc in IH.
    apply Forall_app in IH as [IHpre IHc]. rewrite Forall_singleton in IHc.
    apply Forall_app. split.
    + destruct Hsplit as [(-> & _)|(-> & _)]; [done|].
      apply Forall_app. split; [done|]. by apply Forall_singleton.
    + apply Forall_singleton. unfold push_sequence.
      cbn [ChunkDescriptor.m_sequences ChunkDescriptor.set_m_sequences].
      rewrite account_m_sequences. apply Forall_app. split.
      * destruct Hsplit as [(_ & -> & _)|(_ & -> & _)]; [done|by cbn].
      * apply Forall_singleton. cbn. lia.
Qed.

Lemma BuiltContiguous_first_chunk idx pos :
  BuiltContiguous CHUNKID_MAX idx pos ->
  forall c, Index.m_chunks idx !! 0%nat = Some c ->
    ChunkDescriptor.m_offset c = 0 /\
    (length (Index.m_chunks idx) = 1%nat -> ChunkDescriptor.m_byteSize c = pos) /\
    Forall (fun x => SequenceDescriptor.m_chunkOffsetBytes x + SequenceDescriptor.m_byteSize x
                     <= ChunkDescriptor.m_byteSize c)
           (ChunkDescriptor.m_sequences c).
Proof.
  induction 1 as [|idx pos sd e idx' HBC IH Hn Hle He H].
  - intros c [= <-]. cbn. by repeat split.
  - apply BuiltContiguous_Built in HBC as [_ Hpos]. unfold size_t in *.
    apply AddSequence_Returned in H
      as (pre & c & pre' & c0 & Hc & Hsz & Hsplit & _ & Hoff & ->).
    cbn [Index.m_chunks]. rewrite Hc in IH.
    rewrite (wrap64_small (e - pos)) in * by lia.
    intros x Hx. destruct pre' as [|p pre''].
    + cbn in Hx. injection Hx as <-.
      destruct Hsplit as [(<- & -> & _)|(Habs & _)]; [|by destruct pre].
      destruct (IH c eq_refl) as (Hoff0 & Hsize & Hseqs).
      specialize (Hsize eq_refl).
      unfold push_sequence.
      cbn [ChunkDescriptor.m_offset ChunkDescriptor.m_byteSize ChunkDescriptor.m_sequences
           ChunkDescriptor.set_m_sequences length app].
      rewrite account_m_offset, account_m_byteSize, account_m_sequences.
      cbn [SequenceDescriptor.m_byteSize SequenceDescriptor.set_m_byteSize].
      rewrite Hsize. replace (pos + (e - pos)) with e by lia.
      rewrite wrap64_small by lia.
      split; [done|]. split; [done|].
      apply Forall_app. split.
      * eapply Forall_impl; [exact Hseqs|]. cbn. intros y Hy. lia.
      * apply Forall_singleton. cbn. rewrite Hoff0, Z.sub_0_r.
        rewrite wrap64_small by lia. lia.
    + cbn in Hx. injection Hx as <-.
      assert (Hhead : (pre ++ [c]) !! 0%nat = Some p).
      { destruct Hsplit as [(Hp & _)|(Hp & _)].
        - rewrite <- Hp. done.
        - rewrite <- Hp. done. }
      destruct (IH p Hhead) as (Hoff0 & _ & Hseqs).
      split; [done|]. split; [|done].
      cbn. rewrite length_app. cbn. lia.
Qed.

(** C4 (amended): in every index built by [Reserve] and calls that all
    returned, every stored [m_chunkOffsetBytes] is non-negative; and when
    the records were added back to back from file offset 0, every sequence
    [s] of the first chunk [c] satisfies
    [s.m_chunkOffsetBytes + s.m_byteSize <= c.m_byteSize]. *)
Theorem first_chunk_sequences_lie_within_chunk idx :
  Built CHUNKID_MAX idx ->
  (forall c s, c ∈ Index.m_chunks idx -> s ∈ ChunkDescriptor.m_sequences c ->
     0 <= SequenceDescriptor.m_chunkOffsetBytes s) /\
  (forall pos, BuiltContiguous CHUNKID_MAX idx pos ->
   forall c s, Index.m_chunks idx !! 0%nat = Some c -> s ∈ ChunkDescriptor.m_sequences c ->
     SequenceDescriptor.m_chunkOffsetBytes s + SequenceDescriptor.m_byteSize s
     <= ChunkDescriptor.m_byteSize c).
Proof.
  intros HB. split.
  - intros c s Hc Hs.
    pose proof (Built_chunkOffsetBytes_nonneg idx HB) as Hall.
    rewrite Forall_forall in Hall. specialize (Hall c Hc).
    rewrite Forall_forall in Hall. by apply Hall.
  - intros pos HBC c s Hc Hs.
    destruct (BuiltContiguous_first_chunk idx pos HBC c Hc) as (_ & _ & Hall).
    rewrite Forall_forall in Hall. by apply Hall.
Qed.

(** ** Chunk offsets *)

(** What line 107 computes: [previousChunk] names the pointer variable
    [chunk], which by then points at the chunk just pushed, so the sum is
    that of the two zero fields of the new chunk. *)
Lemma Built_chunk_offsets idx :
  Built CHUNKID_MAX idx ->
  Forall (fun c => ChunkDescriptor.m_offset c = 0) (Index.m_chunks idx).
Proof.
  induction 1 as [|idx sd s e idx' HB IH _ _ _ H].
  - cbn. by apply Forall_singleton.
  - apply AddSequence_Returned in H
      as (pre & c & pre' & c0 & Hc & _ & Hsplit & _ & _ & ->).
    cbn [Index.m_chunks]. rewrite Hc in IH.
    apply Forall_app in IH as [IHpre IHc]. rewrite Forall_singleton in IHc.
    apply Forall_app. split.
    + destruct Hsplit as [(-> & _)|(-> & _)]; [done|].
      apply Forall_app. split; [done|]. by apply Forall_singleton.
    + apply Forall_singleton. unfold push_sequence.
      cbn [ChunkDescriptor.m_offset ChunkDescriptor.set_m_sequences].
      rewrite account_m_offset.
      by destruct Hsplit as [(_ & -> & _)|(_ & -> & _)].
Qed.

(** Every chunk but the last one was left with a positive byte size. *)
Lemma Built_sealed_chunks idx :
  Built CHUNKID_MAX idx ->
  forall pre c, Index.m_chunks idx = pre ++ [c] ->
    Forall (fun x => 0 < ChunkDescriptor.m_byteSize x) pre.
Proof.
  induction 1 as [|idx sd s e idx' HB IH _ _ _ H].
  - intros pre c Hc. cbn in Hc. destruct pre as [|? [|? ?]]; [done|done|done].
  - apply AddSequence_Returned in H
      as (pre & c & pre' & c0 & Hc & _ & Hsplit & _ & _ & ->).
    cbn [Index.m_chunks]. intros pre2 c2 Heq.
    apply app_inj_tail in Heq as [<- _].
    specialize (IH pre c Hc).
    destruct Hsplit as [(-> & _)|(-> & _ & Hpos & _)]; [done|].
    apply Forall_app. split; [done|]. by apply Forall_singleton.
Qed.

(** So no two adjacent chunks of a built index are laid out back to back. *)
Lemma Built_adjacent_chunks idx (i : nat) c c' :
  Built CHUNKID_MAX idx ->
  Index.m_chunks idx !! i = Some c ->
  Index.m_chunks idx !! S i = Some c' ->
  ChunkDescriptor.m_offset c' = 0 /\
  0 < ChunkDescriptor.m_offset c + ChunkDescriptor.m_byteSize c.
Proof.
  intros HB Hi HSi.
  pose proof (Built_chunk_offsets idx HB) as Hoff. rewrite Forall_forall in Hoff.
  split; [apply Hoff; by eapply list_elem_of_lookup_2|].
  rewrite (Hoff c) by (by eapply list_elem_of_lookup_2).
  destruct (snoc_cases (Index.m_chunks idx)) as [Hnil|(pre & l & Hc)].
  { by rewrite Hnil in Hi. }
  pose proof (Built_sealed_chunks idx HB pre l Hc) as Hsealed.
  rewrite Forall_forall in Hsealed. rewrite Hc in Hi, HSi.
  apply lookup_lt_Some in HSi. rewrite length_app in HSi. cbn in HSi.
  rewrite lookup_app_l in Hi by lia.
  specialize (Hsealed c ltac:(by eapply list_elem_of_lookup_2)). lia.
Qed.

(** The chunk-boundary decision, for a call that returns.  A last chunk with
    bytes in it that the record would take past the cap is left as it is,
    and the record goes alone into a new chunk whose id is its position;
    the offset of that chunk is 0. *)
Lemma AddSequence_opens_chunk idx pre c sd s e idx' :
  1 <= CHUNKID_MAX < 2 ^ 64 ->
  Index.m_chunks idx = pre ++ [c] ->
  0 < ChunkDescriptor.m_byteSize c ->
  Index.m_maxChunkSize idx < wrap64 (ChunkDescriptor.m_byteSize c + wrap64 (e - s)) ->
  AddSequence CHUNKID_MAX idx sd s e = (idx', Returned) ->
  exists c',
    Index.m_chunks idx' = pre ++ [c; c'] /\
    ChunkDescriptor.m_id c' = vector_size (pre ++ [c]) /\
    ChunkDescriptor.m_offset c' = 0 /\
    ChunkDescriptor.m_sequences c'
      = [SequenceDescriptor.mk (SequenceDescriptor.m_key sd)
           (SequenceDescriptor.m_numberOfSamples sd) (wrap64 s) (wrap64 (e - s))].
Proof.
  intros HM Hc Hpos Hgt H.
  apply AddSequence_Returned in H
    as (pre0 & c1 & pre' & c0 & Hc' & _ & Hsplit & _ & _ & ->).
  rewrite Hc in Hc'. apply app_inj_tail in Hc' as [<- <-].
  destruct Hsplit as [(_ & _ & [Hle|Hle])|(-> & -> & _ & _ & Hroom)]; [lia|lia|].
  eexists. split; [cbn [Index.m_chunks]; by rewrite <- app_assoc|].
  unfold push_sequence, vector_size in *.
  cbn [ChunkDescriptor.m_id ChunkDescriptor.m_offset ChunkDescriptor.m_sequences
       ChunkDescriptor.set_m_sequences].
  rewrite account_m_id, account_m_offset, account_m_sequences.
  cbn [ChunkDescriptor.m_id ChunkDescriptor.m_offset ChunkDescriptor.m_sequences app].
  rewrite length_app. cbn [length].
  rewrite wrap64_small by lia. rewrite to_ChunkIdType_small by lia.
  rewrite Z.sub_0_r. split; [lia|done].
Qed.

(** A last chunk of byte size zero takes the record whatever its size. *)
Lemma AddSequence_fills_empty_chunk idx pre c sd s e idx' :
  Index.m_chunks idx = pre ++ [c] ->
  ChunkDescriptor.m_byteSize c = 0 ->
  AddSequence CHUNKID_MAX idx sd s e = (idx', Returned) ->
  exists c',
    Index.m_chunks idx' = pre ++ [c'] /\
    ChunkDescriptor.m_byteSize c' = wrap64 (e - s) /\
    ChunkDescriptor.m_sequences c'
      = ChunkDescriptor.m_sequences c
        ++ [SequenceDescriptor.mk (SequenceDescriptor.m_key sd)
              (SequenceDescriptor.m_numberOfSamples sd)
              (wrap64 (s - ChunkDescriptor.m_offset c)) (wrap64 (e - s))].
Proof.
  intros Hc H0 H.
  apply AddSequence_Returned in H
    as (pre0 & c1 & pre' & c0 & Hc' & Hsz & Hsplit & _ & _ & ->).
  rewrite Hc in Hc'. apply app_inj_tail in Hc' as [<- <-].
  destruct Hsplit as [(-> & -> & _)|(_ & _ & Hpos & _)]; [|lia].
  eexists. split; [reflexivity|].
  unfold push_sequence.
  cbn [ChunkDescriptor.m_byteSize ChunkDescriptor.m_sequences ChunkDescriptor.set_m_sequences].
  rewrite account_m_byteSize, account_m_sequences, H0.
  cbn [SequenceDescriptor.m_byteSize SequenceDescriptor.set_m_byteSize].
  rewrite Z.add_0_l, wrap64_small by lia. done.
Qed.

(** ** Runs *)

Lemma run_app idx calls1 calls2 :
  run CHUNKID_MAX idx (calls1 ++ calls2) =
    match run CHUNKID_MAX idx calls1 with
    | (idx', Returned) => run CHUNKID_MAX idx' calls2
    | failed => failed
    end.
Proof.
  revert idx. induction calls1 as [|c calls1 IH]; intros idx; [done|].
  cbn [run app].
  destruct (AddSequence CHUNKID_MAX idx (call_sd c) (call_start c) (call_end c))
    as [idx1 [| |]]; [apply IH|done|done].
Qed.

Lemma run_Built idx calls idx' :
  Built CHUNKID_MAX idx ->
  Forall well_typed calls ->
  run CHUNKID_MAX idx calls = (idx', Returned) ->
  Built CHUNKID_MAX idx'.
Proof.
  intros HB Hwt. revert idx HB.
  induction Hwt as [|c calls (Hn & Hs & He) _ IH]; intros idx HB H.
  - cbn in H. by injection H as <-.
  - cbn [run] in H.
    destruct (AddSequence CHUNKID_MAX idx (call_sd c) (call_start c) (call_end c))
      as [idx1 [| |]] eqn:Hstep; [|done|done].
    eapply IH; [|exact H].
    exact (Built_AddSequence _ _ _ _ _ _ HB Hn Hs He Hstep).
Qed.

Lemma build_Built chunkSize primary trackFirstSamples sizeInBytes calls idx' :
  size_t chunkSize ->
  Forall well_typed calls ->
  build CHUNKID_MAX chunkSize primary trackFirstSamples sizeInBytes calls = (idx', Returned) ->
  Built CHUNKID_MAX idx'.
Proof.
  intros Hc Hwt H. eapply run_Built; [|exact Hwt|exact H]. by constructor.
Qed.

(** ** Many empty records in one chunk of a secondary index *)

Lemma crowded_first :
  AddSequence CHUNKID_MAX (Reserve (Index.ctor 10 false false) 0) (sd1 0) 0 0
  = (crowded 1, Returned).
Proof.
  rewrite (AddSequence_back _ [] ChunkDescriptor.ctor) by done.
  reflexivity.
Qed.

Lemma crowded_next (n : nat) :
  1 <= Z.of_nat n < 2 ^ 32 ->
  AddSequence CHUNKID_MAX (crowded n) (sd1 0) 0 0 = (crowded (S n), Returned).
Proof.
  intros Hn.
  rewrite (AddSequence_back _ [] (ChunkDescriptor.mk 0 (Z.of_nat n) (Z.of_nat n)
             (replicate n (SequenceDescriptor.mk (key 0) 1 0 0)) 0 0 [])) by done.
  cbn zeta.
  change (wrap64 (0 - 0)) with 0. change (wrap32 0) with 0.
  change (0 =? 0) with true.
  cbn [negb ChunkDescriptor.m_byteSize ChunkDescriptor.m_sequences ChunkDescriptor.m_offset
       ChunkDescriptor.m_id Z.ltb Z.compare andb crowded Index.m_primary Index.m_maxChunkSize
       Index.m_trackFirstSamples Index.m_keyToSequenceInChunk].
  unfold vector_size. rewrite length_replicate.
  rewrite (wrap32_small (Z.of_nat n)) by lia. rewrite Z.eqb_refl.
  cbn [negb andb].
  change (wrap64 (0 - 0)) with 0. change (wrap32 0) with 0.
  change (0 =? 0) with true. cbn [negb].
  unfold map_insert, sd1, key, SequenceDescriptor.ctor.
  cbn [SequenceDescriptor.m_key m_sequence].
  rewrite lookup_singleton_eq.
  unfold crowded, Index.set_m_chunks, Index.set_m_keyToSequenceInChunk, push_sequence,
         account.
  cbn [Index.m_chunks Index.m_keyToSequenceInChunk Index.m_maxChunkSize Index.m_primary
       Index.m_trackFirstSamples app ChunkDescriptor.m_id ChunkDescriptor.m_numberOfSamples
       ChunkDescriptor.m_numberOfSequences ChunkDescriptor.m_sequences ChunkDescriptor.m_offset
       ChunkDescriptor.m_byteSize ChunkDescriptor.m_firstSamples
       ChunkDescriptor.set_m_sequences ChunkDescriptor.set_m_byteSize
       ChunkDescriptor.set_m_numberOfSequences ChunkDescriptor.set_m_numberOfSamples
       SequenceDescriptor.m_byteSize SequenceDescriptor.m_numberOfSamples
       SequenceDescriptor.m_key SequenceDescriptor.m_chunkOffsetBytes
       SequenceDescriptor.set_m_byteSize SequenceDescriptor.set_m_chunkOffsetBytes].
  rewrite replicate_S_end.
  change (wrap64 (0 + 0)) with 0.
  rewrite wrap64_small by lia.
  replace (Z.of_nat n + 1) with (Z.of_nat (S n)) by lia.
  reflexivity.
Qed.

Lemma run_zero_records (n : nat) :
  1 <= Z.of_nat n <= 2 ^ 32 ->
  build CHUNKID_MAX 10 false false 0 (replicate n zero_record) = (crowded n, Returned).
Proof.
  unfold build. induction n as [|n IH]; [lia|]. intros Hn.
  rewrite replicate_S_end, run_app.
  destruct n as [|n].
  - cbn [replicate run]. cbn [zero_record call_sd call_start call_end].
    by rewrite crowded_first.
  - rewrite IH by lia. cbn [run zero_record call_sd call_start call_end].
    rewrite crowded_next by lia. reflexivity.
Qed.

Lemma crowded_overflow (n : nat) :
  Z.of_nat n = 2 ^ 32 ->
  (AddSequence CHUNKID_MAX (crowded n) (sd1 0) 0 0).2 = Raised NumberOfSequencesOverflow.
Proof.
  intros Hn.
  rewrite (AddSequence_back _ [] (ChunkDescriptor.mk 0 (Z.of_nat n) (Z.of_nat n)
             (replicate n (SequenceDescriptor.mk (key 0) 1 0 0)) 0 0 [])) by done.
  cbn zeta.
  change (wrap64 (0 - 0)) with 0. change (wrap32 0) with 0.
  change (0 =? 0) with true.
  cbn [negb ChunkDescriptor.m_byteSize ChunkDescriptor.m_sequences ChunkDescriptor.m_offset
       ChunkDescriptor.m_id Z.ltb Z.compare andb crowded Index.m_primary Index.m_maxChunkSize
       Index.m_trackFirstSamples Index.m_keyToSequenceInChunk].
  unfold vector_size. rewrite length_replicate, Hn.
  change (wrap32 (2 ^ 32)) with 0. change (0 =? 2 ^ 32) with false.
  reflexivity.
Qed.

(** ** Many samples in one chunk of a primary index *)

Lemma heavy_next (n : nat) :
  AddSequence CHUNKID_MAX (heavy n) (call_sd heavy_record) 0 0 = (heavy (S n), Returned).
Proof.
  rewrite (AddSequence_back _ [] (heavy_chunk n)) by done.
  unfold heavy_chunk. cbn zeta.
  change (wrap64 (0 - 0)) with 0. change (wrap32 0) with 0.
  change (0 =? 0) with true.
  cbn [negb ChunkDescriptor.m_byteSize ChunkDescriptor.m_sequences ChunkDescriptor.m_offset
       ChunkDescriptor.m_id Z.ltb Z.compare andb heavy Index.m_primary Index.m_maxChunkSize
       Index.m_trackFirstSamples Index.m_keyToSequenceInChunk].
  change (wrap64 (0 - 0)) with 0. change (wrap32 0) with 0.
  change (0 =? 0) with true. cbn [negb].
  unfold heavy, Index.set_m_chunks, push_sequence, account, heavy_record,
         SequenceDescriptor.ctor.
  cbn [Index.m_chunks Index.m_keyToSequenceInChunk Index.m_maxChunkSize Index.m_primary
       Index.m_trackFirstSamples app ChunkDescriptor.m_id ChunkDescriptor.m_numberOfSamples
       ChunkDescriptor.m_numberOfSequences ChunkDescriptor.m_sequences ChunkDescriptor.m_offset
       ChunkDescriptor.m_byteSize ChunkDescriptor.m_firstSamples
       ChunkDescriptor.set_m_sequences ChunkDescriptor.set_m_byteSize
       ChunkDescriptor.set_m_numberOfSequences ChunkDescriptor.set_m_numberOfSamples
       ChunkDescriptor.set_m_firstSamples call_sd
       SequenceDescriptor.m_byteSize SequenceDescriptor.m_numberOfSamples
       SequenceDescriptor.m_key SequenceDescriptor.m_chunkOffsetBytes
       SequenceDescriptor.set_m_byteSize SequenceDescriptor.set_m_chunkOffsetBytes].
  unfold heavy_chunk.
  rewrite replicate_S_end, seq_S, fmap_snoc, Nat2Z.inj_succ, Z.mul_succ_l, <- Z.add_1_r.
  rewrite !wrap64_add_l.
  reflexivity.
Qed.

Lemma run_heavy_records (n : nat) :
  build CHUNKID_MAX 10 true true 0 (replicate n heavy_record) = (heavy n, Returned).
Proof.
  unfold build. induction n as [|n IH]; [reflexivity|].
  rewrite replicate_S_end, run_app, IH.
  cbn [run]. change (call_start heavy_record) with 0. change (call_end heavy_record) with 0.
  by rewrite heavy_next.
Qed.

Lemma sum_samples_replicate (n : nat) x :
  sum_samples (replicate n x) = Z.of_nat n * SequenceDescriptor.m_numberOfSamples x.
Proof.
  unfold sum_samples. induction n as [|n IH]; [done|].
  cbn [replicate foldr]. rewrite IH. lia.
Qed.

Lemma heavy_entry (i : nat) :
  Z.of_nat i = 2 ^ 32 + 2 ->
  ChunkDescriptor.m_firstSamples (heavy_chunk (S i)) !! i = Some (2 ^ 32 - 2) /\
  sum_samples (take i (ChunkDescriptor.m_sequences (heavy_chunk (S i))))
    = 2 ^ 64 + 2 ^ 32 - 2.
Proof.
  intros Hi. unfold heavy_chunk.
  cbn [ChunkDescriptor.m_firstSamples ChunkDescriptor.m_sequences]. split.
  - rewrite list_lookup_fmap, lookup_seq_lt by lia.
    cbn [fmap option_fmap option_map Nat.add]. rewrite Hi. reflexivity.
  - rewrite take_replicate, Nat.min_l by lia.
    rewrite sum_samples_replicate, Hi. reflexivity.
Qed.

End Properties.

(** ** Concrete runs *)

Lemma two_pow_32_spec : Z.of_nat two_pow_32 = 2 ^ 32.
Proof. unfold two_pow_32. apply Z2Nat.id. lia. Qed.

Lemma two_records_well_typed : Forall well_typed two_records.
Proof. repeat constructor; unfold uint32_t, size_t; cbn; lia. Qed.

Lemma Built_two_chunks : Built CHUNKID_MAX_u32 two_chunks.
Proof.
  apply (build_Built CHUNKID_MAX_u32 10 false true 16 two_records).
  - unfold size_t. lia.
  - exact two_records_well_typed.
  - vm_compute. reflexivity.
Qed.

Lemma Built_large_chunk : Built CHUNKID_MAX_u32 large_chunk.
Proof.
  apply (build_Built CHUNKID_MAX_u32 10 true false 20 empty_then_large).
  - unfold size_t. lia.
  - repeat constructor; unfold uint32_t, size_t; cbn; lia.
  - vm_compute. reflexivity.
Qed.

Lemma BuiltContiguous_two_chunks : BuiltContiguous CHUNKID_MAX_u32 two_chunks 16.
Proof.
  apply (BuiltContiguous_AddSequence CHUNKID_MAX_u32 one_chunk 8 (sd1 1) 16).
  - apply (BuiltContiguous_AddSequence CHUNKID_MAX_u32
             (Reserve (Index.ctor 10 false true) 16) 0 (sd1 0) 8).
    + constructor. unfold size_t. lia.
    + unfold uint32_t. cbn. lia.
    + lia.
    + unfold size_t. lia.
    + vm_compute. reflexivity.
  - unfold uint32_t. cbn. lia.
  - lia.
  - unfold size_t. lia.
  - vm_compute. reflexivity.
Qed.

(** C1: with a cap of 10 bytes and two records of 8 bytes at file offsets 0
    and 8, both calls return and the index has two chunks of 8 bytes; the
    second one has [m_offset] 0, where the first one's [m_offset +
    m_byteSize] is 8. *)
Theorem second_chunk_offset_is_zero :
  (build CHUNKID_MAX_u32 10 true false 16 two_records).2 = Returned /\
  (fun c => (ChunkDescriptor.m_offset c, ChunkDescriptor.m_byteSize c))
    <$> Index.m_chunks (build CHUNKID_MAX_u32 10 true false 16 two_records).1
  = [(0, 8); (0, 8)].
Proof. split; vm_compute; reflexivity. Qed.

(** C2: on the index holding the first of the two records (one chunk at
    offset 0 with 8 bytes, cap 10), adding the second record returns and
    opens a chunk with id 1 that holds just that record; the [m_offset] of
    the new chunk is 0, not the 0 + 8 of the chunk left behind, and the
    record's [m_chunkOffsetBytes] is its file offset 8. *)
Theorem opened_chunk_offset_ignores_sealed_chunk :
  (fun c => (ChunkDescriptor.m_offset c, ChunkDescriptor.m_byteSize c))
    <$> Index.m_chunks one_chunk = [(0, 8)] /\
  (AddSequence CHUNKID_MAX_u32 one_chunk (sd1 1) 8 16).2 = Returned /\
  (fun c => (ChunkDescriptor.m_id c, ChunkDescriptor.m_offset c,
             ChunkDescriptor.m_sequences c))
    <$> drop 1 (Index.m_chunks (AddSequence CHUNKID_MAX_u32 one_chunk (sd1 1) 8 16).1)
  = [(1, 0, [SequenceDescriptor.mk (key 1) 1 8 8])].
Proof. repeat split; vm_compute; reflexivity. Qed.

(** C3, as stated, fails: with a cap of 10 bytes, an empty record followed
    by a record of 20 bytes gives one chunk of 20 bytes that holds two
    sequences. *)
Lemma two_sequences_in_chunk_over_cap :
  exists idx c,
    build CHUNKID_MAX_u32 10 true false 20 empty_then_large = (idx, Returned) /\
    c ∈ Index.m_chunks idx /\
    Index.m_maxChunkSize idx < ChunkDescriptor.m_byteSize c /\
    length (ChunkDescriptor.m_sequences c) = 2%nat.
Proof.
  exists large_chunk, (Index.m_chunks large_chunk !!! 0%nat).
  split; [vm_compute; reflexivity|].
  split; [apply (list_elem_of_lookup_2 _ 0%nat); vm_compute; reflexivity|].
  split; vm_compute; reflexivity.
Qed.

Lemma chunk_exceeds_cap_witness :
  Built CHUNKID_MAX_u32 large_chunk /\
  (ChunkDescriptor.m_byteSize (Index.m_chunks large_chunk !!! 0%nat)
     <= Index.m_maxChunkSize large_chunk \/
   exists zs s,
     ChunkDescriptor.m_sequences (Index.m_chunks large_chunk !!! 0%nat) = zs ++ [s] /\
     Forall (fun z => SequenceDescriptor.m_byteSize z = 0) zs /\
     SequenceDescriptor.m_byteSize s
       = ChunkDescriptor.m_byteSize (Index.m_chunks large_chunk !!! 0%nat) /\
     Index.m_maxChunkSize large_chunk < SequenceDescriptor.m_byteSize s).
Proof.
  split; [exact Built_large_chunk|].
  apply (chunk_exceeds_cap_only_with_oversized_record CHUNKID_MAX_u32).
  - exact Built_large_chunk.
  - apply (list_elem_of_lookup_2 _ 0%nat). vm_compute. reflexivity.
Defined.

(** C4, as stated, fails: a single record of 5 bytes at file offset 100 is
    stored with [m_chunkOffsetBytes] 100 in a chunk of 5 bytes. *)
Lemma late_record_exceeds_chunk :
  exists idx c s,
    build CHUNKID_MAX_u32 10 true false 105 late_record = (idx, Returned) /\
    c ∈ Index.m_chunks idx /\
    s ∈ ChunkDescriptor.m_sequences c /\
    ChunkDescriptor.m_byteSize c
      < SequenceDescriptor.m_chunkOffsetBytes s + SequenceDescriptor.m_byteSize s.
Proof.
  exists late_chunk, (Index.m_chunks late_chunk !!! 0%nat),
         (SequenceDescriptor.mk (key 0) 1 100 5).
  split; [vm_compute; reflexivity|].
  split; [apply (list_elem_of_lookup_2 _ 0%nat); vm_compute; reflexivity|].
  split; [apply (list_elem_of_lookup_2 _ 0%nat); vm_compute; reflexivity|].
  vm_compute. reflexivity.
Qed.

Lemma Built_late_chunk : Built CHUNKID_MAX_u32 late_chunk.
Proof.
  apply (build_Built CHUNKID_MAX_u32 10 true false 105 late_record).
  - unfold size_t. lia.
  - repeat constructor; unfold uint32_t, size_t; cbn; lia.
  - vm_compute. reflexivity.
Qed.

Lemma first_chunk_sequences_witness :
  (Built CHUNKID_MAX_u32 late_chunk /\
   0 <= SequenceDescriptor.m_chunkOffsetBytes (SequenceDescriptor.mk (key 0) 1 100 5)) /\
  (BuiltContiguous CHUNKID_MAX_u32 two_chunks 16 /\
   0 <= SequenceDescriptor.m_chunkOffsetBytes (SequenceDescriptor.mk (key 1) 1 8 8) /\
   SequenceDescriptor.m_chunkOffsetBytes (SequenceDescriptor.mk (key 0) 1 0 8)
     + SequenceDescriptor.m_byteSize (SequenceDescriptor.mk (key 0) 1 0 8)
   <= ChunkDescriptor.m_byteSize (Index.m_chunks two_chunks !!! 0%nat)).
Proof.
  split.
  - split; [exact Built_late_chunk|].
    apply (proj1 (first_chunk_sequences_lie_within_chunk CHUNKID_MAX_u32 late_chunk
                    Built_late_chunk)
             (Index.m_chunks late_chunk !!! 0%nat)).
    + apply (list_elem_of_lookup_2 _ 0%nat). vm_compute. reflexivity.
    + apply (list_elem_of_lookup_2 _ 0%nat). vm_compute. reflexivity.
  - split; [exact BuiltContiguous_two_chunks|]. split.
    + apply (proj1 (first_chunk_sequences_lie_within_chunk CHUNKID_MAX_u32 two_chunks
                      Built_two_chunks)
               (Index.m_chunks two_chunks !!! 1%nat)).
      * apply (list_elem_of_lookup_2 _ 1%nat). vm_compute. reflexivity.
      * apply (list_elem_of_lookup_2 _ 0%nat). vm_compute. reflexivity.
    + apply (proj2 (first_chunk_sequences_lie_within_chunk CHUNKID_MAX_u32 two_chunks
                      Built_two_chunks)
               16 BuiltContiguous_two_chunks (Index.m_chunks two_chunks !!! 0%nat)).
      * vm_compute. reflexivity.
      * apply (list_elem_of_lookup_2 _ 0%nat). vm_compute. reflexivity.
Defined.

(** C5, as stated, fails: after 2^32 empty records at file offset 0 in a
    secondary index, one more such record raises "Number of sequences
    overflow the chunk capacity." although both [endOffsetInFile -
    startOffsetInFile] and [startOffsetInFile - chunk->m_offset] are 0. *)
Lemma position_overflow_with_sizes_in_range :
  build CHUNKID_MAX_u32 10 false false 0 (replicate two_pow_32 zero_record)
    = (crowded two_pow_32, Returned) /\
  (AddSequence CHUNKID_MAX_u32 (crowded two_pow_32)
     (call_sd zero_record) (call_start zero_record) (call_end zero_record)).2
    = Raised NumberOfSequencesOverflow /\
  call_end zero_record - call_start zero_record < 2 ^ 32 /\
  Forall (fun c => call_start zero_record - ChunkDescriptor.m_offset c < 2 ^ 32)
         (Index.m_chunks (crowded two_pow_32)).
Proof.
  split; [|split; [|split]].
  - apply run_zero_records. rewrite two_pow_32_spec. lia.
  - apply crowded_overflow, two_pow_32_spec.
  - cbn [zero_record call_end call_start]. lia.
  - unfold crowded. cbn [Index.m_chunks]. apply Forall_singleton.
    cbn [ChunkDescriptor.m_offset zero_record call_start]. lia.
Qed.

Lemma size_errors_witness :
  Index.m_chunks two_chunks
    = take 1 (Index.m_chunks two_chunks) ++ [Index.m_chunks two_chunks !!! 1%nat] /\
  ((AddSequence CHUNKID_MAX_u32 two_chunks (sd1 2) 16 17).2 = Raised SequenceByteSizeOverflow
   <-> 2 ^ 32 <= 17 - 16).
Proof.
  split; [vm_compute; reflexivity|].
  apply (size_errors_and_stored_fields CHUNKID_MAX_u32 two_chunks
           (take 1 (Index.m_chunks two_chunks)) (Index.m_chunks two_chunks !!! 1%nat)
           (sd1 2) 16 17).
  - vm_compute. reflexivity.
  - lia.
  - lia.
  - lia.
  - vm_compute. split; discriminate.
Defined.

Lemma chunk_limit_witness :
  1 <= CHUNKID_MAX_u32 < 2 ^ 64 /\
  vector_size (Index.m_chunks two_chunks) <= CHUNKID_MAX_u32 /\
  (forall (i : nat) c,
     Index.m_chunks two_chunks !! i = Some c -> ChunkDescriptor.m_id c = Z.of_nat i).
Proof.
  split; [unfold CHUNKID_MAX_u32; lia|].
  apply (chunk_limit_is_enforced CHUNKID_MAX_u32 two_chunks).
  - unfold CHUNKID_MAX_u32. lia.
  - exact Built_two_chunks.
Defined.

(** C8, as stated, fails: in a primary index with a first-sample table,
    after 2^32 + 3 empty records of 2^32 - 1 samples each, entry 2^32 + 2 of
    the table is 2^32 - 2, while the samples of the sequences before that
    position add up to 2^64 + 2^32 - 2. *)
Lemma first_sample_entry_wraps :
  build CHUNKID_MAX_u32 10 true true 0 (replicate (S two_pow_32_plus_2) heavy_record)
    = (heavy (S two_pow_32_plus_2), Returned) /\
  Index.m_chunks (heavy (S two_pow_32_plus_2)) = [heavy_chunk (S two_pow_32_plus_2)] /\
  ChunkDescriptor.m_firstSamples (heavy_chunk (S two_pow_32_plus_2)) !! two_pow_32_plus_2
    = Some (2 ^ 32 - 2) /\
  sum_samples (take two_pow_32_plus_2
                 (ChunkDescriptor.m_sequences (heavy_chunk (S two_pow_32_plus_2))))
    = 2 ^ 64 + 2 ^ 32 - 2.
Proof.
  split; [apply run_heavy_records|].
  split; [reflexivity|].
  apply heavy_entry.
  unfold two_pow_32_plus_2. apply Z2Nat.id. lia.
Qed.

Lemma Built_three_samples : Built CHUNKID_MAX_u32 three_samples.
Proof.
  apply (build_Built CHUNKID_MAX_u32 100 true true 30 three_records).
  - unfold size_t. lia.
  - repeat constructor; unfold uint32_t, size_t; cbn; lia.
  - vm_compute. reflexivity.
Qed.

Lemma first_samples_witness :
  build CHUNKID_MAX_u32 100 true true 30 three_records = (three_samples, Returned) /\
  Index.m_trackFirstSamples three_samples = true /\
  length (ChunkDescriptor.m_firstSamples (Index.m_chunks three_samples !!! 0%nat)) = 3%nat /\
  ChunkDescriptor.m_firstSamples (Index.m_chunks three_samples !!! 0%nat) !! 1%nat = Some 3 /\
  ChunkDescriptor.m_firstSamples (Index.m_chunks three_samples !!! 0%nat) !! 2%nat = Some 8.
Proof.
  assert (Ht : Index.m_trackFirstSamples three_samples = true) by (vm_compute; reflexivity).
  assert (Hin : Index.m_chunks three_samples !!! 0%nat ∈ Index.m_chunks three_samples).
  { apply (list_elem_of_lookup_2 _ 0%nat). vm_compute. reflexivity. }
  split; [vm_compute; reflexivity|]. split; [exact Ht|]. split; [|split].
  - rewrite (proj1 (first_samples_are_prefix_sums CHUNKID_MAX_u32 three_samples
                      (Index.m_chunks three_samples !!! 0%nat) 0
                      Built_three_samples Ht Hin ltac:(vm_compute; lia))).
    vm_compute. reflexivity.
  - rewrite (proj2 (proj2 (first_samples_are_prefix_sums CHUNKID_MAX_u32 three_samples
                             (Index.m_chunks three_samples !!! 0%nat) 1
                             Built_three_samples Ht Hin ltac:(vm_compute; lia)))
               ltac:(right; lia)).
    vm_compute. reflexivity.
  - rewrite (proj2 (proj2 (first_samples_are_prefix_sums CHUNKID_MAX_u32 three_samples
                             (Index.m_chunks three_samples !!! 0%nat) 2
                             Built_three_samples Ht Hin ltac:(vm_compute; lia)))
               ltac:(right; lia)).
    vm_compute. reflexivity.
Defined.

Lemma failing_call_witness :
  (AddSequence CHUNKID_MAX_u32 two_chunks (sd1 2) (2 ^ 32) (2 ^ 32 + 1)).2
    = Raised ChunkSizeOverflow /\
  Index.m_keyToSequenceInChunk two_chunks !! 2 = None /\
  Index.m_keyToSequenceInChunk
    (AddSequence CHUNKID_MAX_u32 two_chunks (sd1 2) (2 ^ 32) (2 ^ 32 + 1)).1 !! 2
    = Some (1, 1) /\
  ((AddSequence CHUNKID_MAX_u32 two_chunks (sd1 2) (2 ^ 32) (2 ^ 32 + 1)).1 = two_chunks
   <-> ChunkSizeOverflow = SequenceByteSizeOverflow).
Proof.
  assert (Hc : Index.m_chunks two_chunks
               = take 1 (Index.m_chunks two_chunks) ++ [Index.m_chunks two_chunks !!! 1%nat])
    by (vm_compute; reflexivity).
  assert (Hr : (AddSequence CHUNKID_MAX_u32 two_chunks (sd1 2) (2 ^ 32) (2 ^ 32 + 1)).2
               = Raised ChunkSizeOverflow)
    by (vm_compute; reflexivity).
  assert (Hp : Index.m_primary two_chunks = false) by (vm_compute; reflexivity).
  pose proof (failing_call_is_not_undone CHUNKID_MAX_u32 two_chunks
                (take 1 (Index.m_chunks two_chunks)) (Index.m_chunks two_chunks !!! 1%nat)
                (sd1 2) (2 ^ 32) (2 ^ 32 + 1) Hc) as [Hraised Honly].
  split; [exact Hr|]. split; [vm_compute; reflexivity|]. split.
  - destruct (Hraised Hr)
      as (pre' & c0 & c1 & km' & Heq & Hshape & _ & _ & _ & _ & _ & _ & _ & _ & Hkm).
    rewrite Heq. cbn [Index.m_keyToSequenceInChunk]. rewrite (Hkm Hp 2).
    destruct Hshape as [(_ & _ & ->)|([_ Hcap] & _)].
    + vm_compute. reflexivity.
    + vm_compute in Hcap. discriminate Hcap.
  - exact (Honly ChunkSizeOverflow Hr).
Defined.

Lemma duplicate_key_witness :
  Index.m_keyToSequenceInChunk two_chunks !! m_sequence (SequenceDescriptor.m_key (sd1 0))
    = Some (0, 0) /\
  (AddSequence CHUNKID_MAX_u32 two_chunks (sd1 0) 16 17).2 = Returned /\
  Index.m_keyToSequenceInChunk (AddSequence CHUNKID_MAX_u32 two_chunks (sd1 0) 16 17).1
    = Index.m_keyToSequenceInChunk two_chunks.
Proof.
  split; [vm_compute; reflexivity|].
  split; [vm_compute; reflexivity|].
  apply (duplicate_key_keeps_first_location CHUNKID_MAX_u32 two_chunks (sd1 0) 16 17 (0, 0)).
  - vm_compute. reflexivity.
  - vm_compute. reflexivity.
Defined.

(** * Further properties of [Index] *)

Section Further.

Variable CHUNKID_MAX : Z.

(** ** Running totals *)

Lemma sum_byteSize_snoc l x :
  sum_byteSize (l ++ [x]) = sum_byteSize l + SequenceDescriptor.m_byteSize x.
Proof.
  unfold sum_byteSize. induction l as [|a l IH]; cbn; [lia|].
  rewrite IH. lia.
Qed.

Lemma Built_chunk_totals idx :
  Built CHUNKID_MAX idx ->
  Forall (fun c =>
            ChunkDescriptor.m_numberOfSequences c
              = wrap64 (vector_size (ChunkDescriptor.m_sequences c)) /\
            ChunkDescriptor.m_numberOfSamples c
              = wrap64 (sum_samples (ChunkDescriptor.m_sequences c)) /\
            ChunkDescriptor.m_byteSize c
              = wrap64 (sum_byteSize (ChunkDescriptor.m_sequences c)))
         (Index.m_chunks idx).
Proof.
  induction 1 as [|idx sd s e idx' HB IH _ _ _ H].
  - cbn. apply Forall_singleton. by cbn.
  - apply (AddSequence_Returned CHUNKID_MAX) in H
      as (pre & c & pre' & c0 & Hc & Hsz & Hsplit & _ & _ & ->).
    cbn [Index.m_chunks]. rewrite Hc in IH.
    apply Forall_app in IH as [IHpre IHc]. rewrite Forall_singleton in IHc.
    assert (H0 : ChunkDescriptor.m_numberOfSequences c0
                   = wrap64 (vector_size (ChunkDescriptor.m_sequences c0)) /\
                 ChunkDescriptor.m_numberOfSamples c0
                   = wrap64 (sum_samples (ChunkDescriptor.m_sequences c0)) /\
                 ChunkDescriptor.m_byteSize c0
                   = wrap64 (sum_byteSize (ChunkDescriptor.m_sequences c0))).
    { destruct Hsplit as [(_ & -> & _)|(_ & -> & _)]; [done|by cbn]. }
    destruct H0 as (Hn & Hs & Hb).
    apply Forall_app. split.
    + destruct Hsplit as [(-> & _)|(-> & _)]; [done|].
      apply Forall_app. split; [done|]. by apply Forall_singleton.
    + apply Forall_singleton. unfold push_sequence.
      cbn [ChunkDescriptor.m_numberOfSequences ChunkDescriptor.m_numberOfSamples
           ChunkDescriptor.m_byteSize ChunkDescriptor.m_sequences
           ChunkDescriptor.set_m_sequences].
      rewrite account_m_numberOfSequences, account_m_numberOfSamples,
              account_m_byteSize, account_m_sequences.
      rewrite sum_samples_snoc, sum_byteSize_snoc, Hn, Hs, Hb, !wrap64_add_l.
      unfold vector_size. rewrite length_app. cbn.
      repeat split. f_equal. lia.
Qed.

(** X1: in an index built from calls that all returned, the three running
    totals of every chunk agree with its sequence collection: the sequence
    count with its length, the sample count and the byte size with the sums
    over its descriptors, each as a [size_t]. *)
Theorem chunk_totals_match_sequences idx c :
  Built CHUNKID_MAX idx ->
  c ∈ Index.m_chunks idx ->
  ChunkDescriptor.m_numberOfSequences c
    = wrap64 (vector_size (ChunkDescriptor.m_sequences c)) /\
  ChunkDescriptor.m_numberOfSamples c
    = wrap64 (sum_samples (ChunkDescriptor.m_sequences c)) /\
  ChunkDescriptor.m_byteSize c
    = wrap64 (sum_byteSize (ChunkDescriptor.m_sequences c)).
Proof.
  intros HB Hin. pose proof (Built_chunk_totals idx HB) as Hall.
  rewrite Forall_forall in Hall. by apply Hall.
Qed.

(** ** What a call leaves alone *)

(** The index after a call, whatever its outcome: the vector is the old one
    with its last chunk possibly followed by a new one, and the last element
    has at most been accounted to and pushed to. *)
Lemma AddSequence_shape idx pre c sd s e :
  Index.m_chunks idx = pre ++ [c] ->
  exists pre' c0 c1 km',
    (AddSequence CHUNKID_MAX idx sd s e).1
      = Index.mk (pre' ++ [c1]) km' (Index.m_maxChunkSize idx)
                 (Index.m_primary idx) (Index.m_trackFirstSamples idx) /\
    ((pre' = pre /\ c0 = c) \/
     (pre' = pre ++ [c] /\
      c0 = ChunkDescriptor.mk
             (to_ChunkIdType CHUNKID_MAX (wrap64 (vector_size pre + 1))) 0 0 [] 0 0 [])) /\
    (c1 = c0 \/
     c1 = account (Index.m_trackFirstSamples idx)
            (SequenceDescriptor.set_m_byteSize (wrap32 (wrap64 (e - s))) sd) c0 \/
     exists stored,
       c1 = push_sequence stored
              (account (Index.m_trackFirstSamples idx)
                 (SequenceDescriptor.set_m_byteSize (wrap32 (wrap64 (e - s))) sd) c0)) /\
    (km' = Index.m_keyToSequenceInChunk idx \/
     (Index.m_primary idx = false /\
      exists loc,
        km' = map_insert (m_sequence (SequenceDescriptor.m_key sd)) loc
                (Index.m_keyToSequenceInChunk idx))).
Proof.
  intros Hc. rewrite (AddSequence_back CHUNKID_MAX _ _ _ _ _ _ Hc). cbn zeta.
  destruct (negb (wrap32 (wrap64 (e - s)) =? wrap64 (e - s))).
  { exists pre, c, c, (Index.m_keyToSequenceInChunk idx). cbn [fst].
    split; [destruct idx; cbn in *; by subst|]. auto. }
  set (split := (0 <? ChunkDescriptor.m_byteSize c)
                && (Index.m_maxChunkSize idx
                      <? wrap64 (ChunkDescriptor.m_byteSize c + wrap32 (wrap64 (e - s))))).
  set (pre' := if split then pre ++ [c] else pre).
  set (c0 := if split
             then ChunkDescriptor.mk
                    (to_ChunkIdType CHUNKID_MAX (wrap64 (vector_size pre + 1))) 0 0 [] 0 0 []
             else c).
  assert (Hshape : (pre' = pre /\ c0 = c) \/
                   (pre' = pre ++ [c] /\
                    c0 = ChunkDescriptor.mk
                           (to_ChunkIdType CHUNKID_MAX (wrap64 (vector_size pre + 1)))
                           0 0 [] 0 0 [])).
  { subst pre' c0. destruct split; auto. }
  destruct (split && (CHUNKID_MAX <? vector_size pre + 2)).
  { exists pre', c0, c0, (Index.m_keyToSequenceInChunk idx). cbn [fst]. auto. }
  unfold Index.set_m_chunks, Index.set_m_keyToSequenceInChunk.
  cbn [Index.m_chunks Index.m_keyToSequenceInChunk Index.m_maxChunkSize Index.m_primary
       Index.m_trackFirstSamples].
  destruct (Index.m_primary idx) eqn:Hp; cbn [negb andb].
  - destruct (negb _).
    + eexists pre', c0, _, _. cbn [fst]. split; [reflexivity|]. auto.
    + eexists pre', c0, _, _. cbn [fst]. split; [reflexivity|].
      split; [done|]. split; [|auto]. right. right. by eexists.
  - destruct (negb (wrap32 (vector_size (ChunkDescriptor.m_sequences c0))
                    =? vector_size (ChunkDescriptor.m_sequences c0))).
    { eexists pre', c0, _, _. cbn [fst]. split; [reflexivity|]. auto. }
    destruct (negb _).
    + eexists pre', c0, _, _. cbn [fst]. split; [reflexivity|].
      split; [done|]. split; [auto|]. right. split; [done|]. by eexists.
    + eexists pre', c0, _, _. cbn [fst]. split; [reflexivity|].
      split; [done|]. split; [right; right; by eexists|].
      right. split; [done|]. by eexists.
Qed.

(** X2: whatever its outcome, a call never changes the configuration, never
    removes or replaces a key-map entry, never shortens the chunk vector and
    lengthens it by at most one, leaves every chunk but the last exactly as
    it was, and keeps the id, the offset and the already stored sequences
    (as a prefix) of the last one. *)
Theorem AddSequence_only_extends idx sd s e :
  Index.m_maxChunkSize (AddSequence CHUNKID_MAX idx sd s e).1 = Index.m_maxChunkSize idx /\
  Index.m_primary (AddSequence CHUNKID_MAX idx sd s e).1 = Index.m_primary idx /\
  Index.m_trackFirstSamples (AddSequence CHUNKID_MAX idx sd s e).1
    = Index.m_trackFirstSamples idx /\
  (forall k v,
     Index.m_keyToSequenceInChunk idx !! k = Some v ->
     Index.m_keyToSequenceInChunk (AddSequence CHUNKID_MAX idx sd s e).1 !! k = Some v) /\
  (length (Index.m_chunks idx)
     <= length (Index.m_chunks (AddSequence CHUNKID_MAX idx sd s e).1)
     <= S (length (Index.m_chunks idx)))%nat /\
  (forall (i : nat) c,
     Index.m_chunks idx !! i = Some c ->
     (S i < length (Index.m_chunks idx))%nat ->
     Index.m_chunks (AddSequence CHUNKID_MAX idx sd s e).1 !! i = Some c) /\
  (forall (i : nat) c,
     Index.m_chunks idx !! i = Some c ->
     exists c',
       Index.m_chunks (AddSequence CHUNKID_MAX idx sd s e).1 !! i = Some c' /\
       ChunkDescriptor.m_sequences c `prefix_of` ChunkDescriptor.m_sequences c' /\
       ChunkDescriptor.m_id c' = ChunkDescriptor.m_id c /\
       ChunkDescriptor.m_offset c' = ChunkDescriptor.m_offset c).
Proof.
  destruct (snoc_cases (Index.m_chunks idx)) as [Hnil|(pre & c & Hc)].
  { rewrite (AddSequence_empty CHUNKID_MAX) by done. cbn [fst].
    repeat split; try done; try lia. intros i c Hi. by exists c. }
  destruct (AddSequence_shape idx pre c sd s e Hc)
    as (pre' & c0 & c1 & km' & -> & Hpre & Hc1 & Hkm).
  cbn [Index.m_maxChunkSize Index.m_primary Index.m_trackFirstSamples
       Index.m_keyToSequenceInChunk Index.m_chunks].
  assert (Hrel : ChunkDescriptor.m_sequences c0 `prefix_of` ChunkDescriptor.m_sequences c1 /\
                 ChunkDescriptor.m_id c1 = ChunkDescriptor.m_id c0 /\
                 ChunkDescriptor.m_offset c1 = ChunkDescriptor.m_offset c0).
  { destruct Hc1 as [->|[->|[stored ->]]].
    - done.
    - by rewrite account_m_sequences, account_m_id, account_m_offset.
    - unfold push_sequence.
      cbn [ChunkDescriptor.m_sequences ChunkDescriptor.m_id ChunkDescriptor.m_offset
           ChunkDescriptor.set_m_sequences].
      rewrite account_m_sequences, account_m_id, account_m_offset.
      split; [by apply prefix_app_r|done]. }
  rewrite Hc. split; [done|]. split; [done|]. split; [done|]. split.
  { intros k v Hk. destruct Hkm as [->|(_ & loc & ->)]; [done|].
    by rewrite map_insert_lookup, Hk. }
  split.
  { rewrite !length_app. cbn [length].
    destruct Hpre as [(-> & _)|(-> & _)]; [lia|]. rewrite length_app. cbn. lia. }
  split.
  { intros i x Hi Hlt. rewrite length_app in Hlt. cbn in Hlt.
    rewrite lookup_app_l in Hi by lia.
    apply lookup_app_l_Some.
    destruct Hpre as [(-> & _)|(-> & _)]; [done|by apply lookup_app_l_Some]. }
  intros i x Hi. apply lookup_app_Some in Hi as [Hi|[Hge Hi]].
  - exists x. split; [|done]. apply lookup_app_l_Some.
    destruct Hpre as [(-> & _)|(-> & _)]; [done|by apply lookup_app_l_Some].
  - destruct (i - length pre)%nat eqn:Hd; [|done]. cbn in Hi. injection Hi as <-.
    assert (i = length pre) as -> by lia.
    destruct Hpre as [(-> & ->)|(-> & _)].
    + exists c1. split; [by apply list_lookup_middle|done].
    + exists c. split; [|done].
      apply lookup_app_l_Some. by apply list_lookup_middle.
Qed.

(** ** More on the key map *)

Lemma Built_key_map_nonneg idx :
  Built CHUNKID_MAX idx ->
  forall k loc, Index.m_keyToSequenceInChunk idx !! k = Some loc -> 0 <= loc.1 /\ 0 <= loc.2.
Proof.
  induction 1 as [|idx sd s e idx' HB IH _ _ _ H].
  - intros k loc Hk. cbn in Hk. by rewrite lookup_empty in Hk.
  - apply (AddSequence_Returned CHUNKID_MAX) in H
      as (pre & c & pre' & c0 & _ & _ & _ & _ & _ & ->).
    cbn [Index.m_keyToSequenceInChunk]. intros k loc.
    destruct (Index.m_primary idx); [apply IH|].
    rewrite map_insert_lookup.
    destruct (Index.m_keyToSequenceInChunk idx !! k) as [w|] eqn:Hk.
    + intros [= <-]. by eapply IH.
    + case_decide; [|done]. intros [= <-]. cbn [fst snd].
      pose proof (wrap32_range (ChunkDescriptor.m_id c0)).
      unfold vector_size. lia.
Qed.

(** X3: in a secondary index built from calls that all returned, the key map
    has no stale or dangling entry: every entry holds a chunk id that is a
    position of [m_chunks] and a position that lies within that chunk's
    sequences, and the descriptor found there carries the entry's key. *)
Theorem key_map_entries_resolve idx k loc :
  1 <= CHUNKID_MAX < 2 ^ 32 ->
  Built CHUNKID_MAX idx ->
  Index.m_primary idx = false ->
  Index.m_keyToSequenceInChunk idx !! k = Some loc ->
  exists c x,
    0 <= loc.1 < vector_size (Index.m_chunks idx) /\
    Index.m_chunks idx !! Z.to_nat loc.1 = Some c /\
    0 <= loc.2 < vector_size (ChunkDescriptor.m_sequences c) /\
    ChunkDescriptor.m_sequences c !! Z.to_nat loc.2 = Some x /\
    m_sequence (SequenceDescriptor.m_key x) = k.
Proof.
  intros HM HB Hp Hk.
  destruct (Built_key_map CHUNKID_MAX idx HM HB Hp) as [H1 _].
  destruct (H1 _ _ Hk) as (x & Hx & Hxk).
  destruct (Built_key_map_nonneg idx HB _ _ Hk) as [Hl1 Hl2].
  unfold resolve in Hx. apply bind_Some in Hx as (c & Hc & Hx).
  exists c, x. apply lookup_lt_Some in Hc as Hc', Hx as Hx'.
  unfold vector_size. repeat split; try done; lia.
Qed.

(** X4: with several descriptors of one key, the key map points at the first
    of them in file order. *)
Theorem key_map_points_at_first idx l1 x l2 :
  1 <= CHUNKID_MAX < 2 ^ 32 ->
  Built CHUNKID_MAX idx ->
  Index.m_primary idx = false ->
  all_sequences idx = l1 ++ x :: l2 ->
  Forall (fun y => m_sequence (SequenceDescriptor.m_key y)
                   <> m_sequence (SequenceDescriptor.m_key x)) l1 ->
  exists loc,
    Index.m_keyToSequenceInChunk idx !! m_sequence (SequenceDescriptor.m_key x) = Some loc /\
    resolve idx loc = Some x.
Proof.
  intros HM HB. revert l1 x l2.
  induction HB as [|idx sd s e idx' HB IH Hn Hs He H]; intros l1 x l2 Hp Hall Hfirst.
  - unfold all_sequences in Hall. cbn in Hall. by destruct l1.
  - assert (HB' : Built CHUNKID_MAX idx')
      by exact (Built_AddSequence _ _ _ _ _ _ HB Hn Hs He H).
    assert (Hprim : Index.m_primary idx' = Index.m_primary idx).
    { by apply (AddSequence_Returned CHUNKID_MAX) in H
        as (pre & c & pre' & c0 & _ & _ & _ & _ & _ & ->). }
    rewrite Hprim in Hp.
    destruct (Built_key_map CHUNKID_MAX idx HM HB Hp) as [J1 J2].
    destruct (Built_chunk_ids CHUNKID_MAX idx' ltac:(lia) HB') as [Hcount Hids].
    pose proof (Built_nonempty CHUNKID_MAX idx' HB') as Hne.
    destruct (last (Index.m_chunks idx')) as [c'|] eqn:Hlast;
      [|by apply last_None in Hlast].
    apply (AddSequence_Returned_grows CHUNKID_MAX) in H
      as (stored & n & Hkey & Hgrow & _ & Hmono & Hnew).
    destruct (Hnew c' Hlast) as [Hres Hkm]. rewrite Hp in Hkm.
    assert (Hid : wrap32 (ChunkDescriptor.m_id c') = vector_size (Index.m_chunks idx') - 1).
    { rewrite last_lookup in Hlast. rewrite (Hids _ _ Hlast).
      unfold vector_size in *.
      destruct (Index.m_chunks idx'); [done|]. cbn [length pred] in *.
      rewrite wrap32_small by lia. lia. }
    rewrite Hid in Hkm. rewrite Hkm, map_insert_lookup.
    rewrite Hgrow in Hall.
    destruct l2 as [|z l2 _] using rev_ind.
    + (* x is the descriptor just stored *)
      apply app_inj_tail in Hall as [<- <-].
      destruct (Index.m_keyToSequenceInChunk idx
                  !! m_sequence (SequenceDescriptor.m_key stored)) as [w|] eqn:Hk.
      * exfalso. destruct (J1 _ _ Hk) as (y & Hy & Hyk).
        apply resolve_elem_of in Hy. rewrite Forall_forall in Hfirst.
        by apply (Hfirst y Hy).
      * rewrite <- Hkey, decide_True by done. eauto.
    + (* x was stored before *)
      rewrite app_comm_cons, app_assoc in Hall.
      apply app_inj_tail in Hall as [Hall _].
      destruct (IH l1 x l2 Hp Hall Hfirst) as (loc & Hloc & Hx).
      rewrite Hloc. exists loc. split; [done|]. by apply Hmono.
Qed.

(** ** The descriptors in file order *)

Lemma AddSequence_Returned_appends idx sd s e idx' :
  AddSequence CHUNKID_MAX idx sd s e = (idx', Returned) ->
  exists owner,
    last (Index.m_chunks idx') = Some owner /\
    all_sequences idx'
    = all_sequences idx
      ++ [SequenceDescriptor.mk (SequenceDescriptor.m_key sd)
            (SequenceDescriptor.m_numberOfSamples sd)
            (wrap64 (s - ChunkDescriptor.m_offset owner)) (wrap64 (e - s))].
Proof.
  intros H.
  apply (AddSequence_Returned CHUNKID_MAX) in H
    as (pre & c & pre' & c0 & Hc & Hsz & Hsplit & _ & _ & ->).
  eexists. cbn [Index.m_chunks]. split; [apply last_snoc|].
  unfold all_sequences. cbn [Index.m_chunks]. rewrite Hc.
  unfold push_sequence.
  cbn [ChunkDescriptor.m_offset ChunkDescriptor.set_m_sequences].
  rewrite account_m_offset.
  rewrite !bind_app, !bind_cons. cbn [mbind list_bind]. rewrite !app_nil_r.
  cbn [ChunkDescriptor.m_sequences]. rewrite account_m_sequences.
  cbn [ChunkDescriptor.m_sequences ChunkDescriptor.set_m_sequences].
  destruct Hsplit as [(-> & -> & _)|(-> & -> & _)].
  - by rewrite app_assoc.
  - rewrite bind_app, bind_cons. cbn [mbind list_bind ChunkDescriptor.m_sequences app].
    by rewrite !app_nil_r.
Qed.

(** X5: calls that all return store their descriptors in call order, after
    those already there, each with the key and sample count it was given
    and with [endOffsetInFile - startOffsetInFile] as its byte size; no
    descriptor is dropped, duplicated or reordered. *)
Theorem sequences_follow_call_order idx calls idx' :
  run CHUNKID_MAX idx calls = (idx', Returned) ->
  payload <$> all_sequences idx'
  = (payload <$> all_sequences idx) ++ (call_payload <$> calls).
Proof.
  revert idx. induction calls as [|c calls IH]; intros idx H.
  - cbn in H. injection H as <-. by rewrite app_nil_r.
  - cbn [run] in H.
    destruct (AddSequence CHUNKID_MAX idx (call_sd c) (call_start c) (call_end c))
      as [idx1 [| |]] eqn:Hstep; [|done|done].
    rewrite (IH idx1 H).
    apply AddSequence_Returned_appends in Hstep as (owner & _ & ->).
    rewrite fmap_app, <- app_assoc. reflexivity.
Qed.

(** ** The key map after a run of calls *)

Lemma run_m_primary idx calls idx' :
  run CHUNKID_MAX idx calls = (idx', Returned) ->
  Index.m_primary idx' = Index.m_primary idx.
Proof.
  revert idx. induction calls as [|c calls IH]; intros idx H.
  - cbn in H. by injection H as <-.
  - cbn [run] in H.
    destruct (AddSequence CHUNKID_MAX idx (call_sd c) (call_start c) (call_end c))
      as [idx1 [| |]] eqn:Hstep; [|done|done].
    rewrite (IH idx1 H).
    by apply (AddSequence_Returned CHUNKID_MAX) in Hstep
      as (pre & c' & pre' & c0 & _ & _ & _ & _ & _ & ->).
Qed.

(** Every call of a run that returned has its descriptor in the index. *)
Lemma run_stores_every_call idx calls idx' c :
  run CHUNKID_MAX idx calls = (idx', Returned) ->
  c ∈ calls ->
  exists x, x ∈ all_sequences idx' /\ payload x = call_payload c.
Proof.
  revert idx. induction calls as [|c1 calls IH]; intros idx H Hin.
  - by apply elem_of_nil in Hin.
  - cbn [run] in H.
    destruct (AddSequence CHUNKID_MAX idx (call_sd c1) (call_start c1) (call_end c1))
      as [idx1 [| |]] eqn:Hstep; [|done|done].
    apply elem_of_cons in Hin as [->|Hin]; [|by eapply IH].
    apply AddSequence_Returned_appends in Hstep as (owner & _ & Hall).
    assert (Hkeep : forall calls' idx2 idx3 x,
              run CHUNKID_MAX idx2 calls' = (idx3, Returned) ->
              x ∈ all_sequences idx2 -> x ∈ all_sequences idx3).
    { clear. induction calls' as [|c2 calls' IH']; intros idx2 idx3 x H Hx.
      - cbn in H. by injection H as <-.
      - cbn [run] in H.
        destruct (AddSequence CHUNKID_MAX idx2 (call_sd c2) (call_start c2) (call_end c2))
          as [idx4 [| |]] eqn:Hstep; [|done|done].
        apply (IH' idx4 idx3 x H).
        apply AddSequence_Returned_appends in Hstep as (owner & _ & ->).
        apply elem_of_app. by left. }
    eexists. split.
    + apply (Hkeep calls idx1 idx' _ H). rewrite Hall.
      apply elem_of_app. right. apply list_elem_of_singleton. reflexivity.
    + reflexivity.
Qed.

(** The sequence keys of the stored descriptors are those of the calls. *)
Lemma run_sequence_keys idx calls idx' :
  run CHUNKID_MAX idx calls = (idx', Returned) ->
  (fun z => m_sequence (SequenceDescriptor.m_key z)) <$> all_sequences idx'
  = ((fun z => m_sequence (SequenceDescriptor.m_key z)) <$> all_sequences idx)
    ++ ((fun c => m_sequence (SequenceDescriptor.m_key (call_sd c))) <$> calls).
Proof.
  revert idx. induction calls as [|c calls IH]; intros idx H.
  - cbn in H. injection H as <-. by rewrite app_nil_r.
  - cbn [run] in H.
    destruct (AddSequence CHUNKID_MAX idx (call_sd c) (call_start c) (call_end c))
      as [idx1 [| |]] eqn:Hstep; [|done|done].
    rewrite (IH idx1 H).
    apply AddSequence_Returned_appends in Hstep as (owner & _ & ->).
    rewrite fmap_app, <- app_assoc. reflexivity.
Qed.

(** C6: after [Reserve] and a run of calls that all returned, in a secondary
    index the sequence key of every call is in the key map, and the location
    it maps to dereferences to a stored descriptor with that sequence key;
    when the sequence keys of the calls are pairwise distinct, that
    descriptor is the one the call stored: it has the key, the sample count
    and the byte size of the call.  In a primary index the key map stays
    empty. *)
Theorem key_map_locates_every_sequence chunkSize primary trackFirstSamples sizeInBytes
    calls idx :
  1 <= CHUNKID_MAX < 2 ^ 32 ->
  size_t chunkSize ->
  Forall well_typed calls ->
  build CHUNKID_MAX chunkSize primary trackFirstSamples sizeInBytes calls = (idx, Returned) ->
  (primary = true -> Index.m_keyToSequenceInChunk idx = ∅) /\
  (primary = false ->
   forall c, c ∈ calls ->
     exists loc y,
       Index.m_keyToSequenceInChunk idx !! m_sequence (SequenceDescriptor.m_key (call_sd c))
         = Some loc /\
       resolve idx loc = Some y /\
       m_sequence (SequenceDescriptor.m_key y)
         = m_sequence (SequenceDescriptor.m_key (call_sd c)) /\
       (NoDup ((fun c => m_sequence (SequenceDescriptor.m_key (call_sd c))) <$> calls) ->
        payload y = call_payload c)).
Proof.
  intros HM Hsize Hwt Hrun.
  pose proof (build_Built CHUNKID_MAX _ _ _ _ _ _ Hsize Hwt Hrun) as HB.
  unfold build in Hrun.
  pose proof (run_m_primary _ _ _ Hrun) as Hprim. cbn in Hprim.
  split.
  - intros ->. by apply (Built_primary_key_map CHUNKID_MAX).
  - intros -> c Hin.
    destruct (Built_key_map CHUNKID_MAX idx HM HB Hprim) as [H1 H2].
    destruct (run_stores_every_call _ _ _ _ Hrun Hin) as (x & Hx & Hpay).
    assert (Hkey : m_sequence (SequenceDescriptor.m_key x)
                   = m_sequence (SequenceDescriptor.m_key (call_sd c))).
    { unfold payload, call_payload in Hpay. by injection Hpay as -> _ _. }
    destruct (H2 x Hx) as [loc Hloc].
    destruct (H1 _ _ Hloc) as (y & Hy & Hyk).
    exists loc, y. rewrite <- Hkey. repeat split; try done.
    intros Hnd. rewrite <- Hpay. f_equal.
    apply (NoDup_fmap_elem_eq (fun z => m_sequence (SequenceDescriptor.m_key z))
             (all_sequences idx) y x); [|by eapply resolve_elem_of|exact Hx|exact Hyk].
    rewrite (run_sequence_keys _ _ _ Hrun). exact Hnd.
Qed.

(** X6: in an index built by [Reserve] and calls that all returned, every
    chunk has [m_offset] 0, and the [m_chunkOffsetBytes] of the descriptors
    are, in order, the [startOffsetInFile] of the calls: the field holds the
    offset of the sequence in the input file. *)
Theorem chunk_offset_bytes_are_file_offsets chunkSize primary trackFirstSamples sizeInBytes
    calls idx :
  size_t chunkSize ->
  Forall well_typed calls ->
  build CHUNKID_MAX chunkSize primary trackFirstSamples sizeInBytes calls = (idx, Returned) ->
  Forall (fun c => ChunkDescriptor.m_offset c = 0) (Index.m_chunks idx) /\
  SequenceDescriptor.m_chunkOffsetBytes <$> all_sequences idx = call_start <$> calls.
Proof.
  intros Hsize Hwt Hrun.
  split.
  { apply (Built_chunk_offsets CHUNKID_MAX). by eapply build_Built. }
  unfold build in Hrun.
  assert (HB : Built CHUNKID_MAX
                 (Reserve (Index.ctor chunkSize primary trackFirstSamples) sizeInBytes))
    by (by constructor).
  change (call_start <$> calls)
    with ((SequenceDescriptor.m_chunkOffsetBytes
             <$> all_sequences
                   (Reserve (Index.ctor chunkSize primary trackFirstSamples) sizeInBytes))
          ++ (call_start <$> calls)).
  revert HB Hrun.
  generalize (Reserve (Index.ctor chunkSize primary trackFirstSamples) sizeInBytes).
  induction Hwt as [|c calls (Hn & Hs & He) _ IH]; intros idx0 HB Hrun.
  - cbn in Hrun. injection Hrun as <-. by rewrite app_nil_r.
  - cbn [run] in Hrun.
    destruct (AddSequence CHUNKID_MAX idx0 (call_sd c) (call_start c) (call_end c))
      as [idx1 [| |]] eqn:Hstep; [|done|done].
    assert (HB1 : Built CHUNKID_MAX idx1)
      by exact (Built_AddSequence _ _ _ _ _ _ HB Hn Hs He Hstep).
    rewrite (IH idx1 HB1 Hrun).
    apply AddSequence_Returned_appends in Hstep as (owner & Hlast & ->).
    pose proof (Built_chunk_offsets CHUNKID_MAX idx1 HB1) as Hoff.
    rewrite Forall_forall in Hoff.
    rewrite (Hoff owner) by (by eapply last_Some_elem_of).
    rewrite fmap_app, <- app_assoc. cbn [fmap list_fmap app SequenceDescriptor.m_chunkOffsetBytes].
    rewrite Z.sub_0_r, wrap64_small by exact Hs. reflexivity.
Qed.

(** ** Shape of the chunks *)

(** X7: a built index has no empty chunk, except the single chunk [Reserve]
    seeds while nothing has been added. *)
Theorem no_empty_chunk idx c :
  Built CHUNKID_MAX idx ->
  c ∈ Index.m_chunks idx ->
  ChunkDescriptor.m_sequences c = [] ->
  Index.m_chunks idx = [ChunkDescriptor.ctor].
Proof.
  intros HB.
  assert (Hinv : Index.m_chunks idx = [ChunkDescriptor.ctor] \/
                 Forall (fun x => ChunkDescriptor.m_sequences x <> []) (Index.m_chunks idx)).
  { induction HB as [|idx sd s e idx' HB IH _ _ _ H]; [by left|]. right.
    apply (AddSequence_Returned CHUNKID_MAX) in H
      as (pre & c1 & pre' & c0 & Hc & _ & Hsplit & _ & _ & ->).
    cbn [Index.m_chunks]. apply Forall_app. split.
    - rewrite Hc in IH. destruct IH as [IH|IH].
      + destruct pre as [|? [|? ?]]; [|done|done]. cbn in IH. injection IH as ->.
        destruct Hsplit as [(-> & _)|(_ & _ & Hpos & _)]; [done|]. cbn in Hpos. lia.
      + apply Forall_app in IH as [IHpre IHc].
        destruct Hsplit as [(-> & _)|(-> & _)]; [done|].
        apply Forall_app. by split.
    - apply Forall_singleton. unfold push_sequence.
      cbn [ChunkDescriptor.m_sequences ChunkDescriptor.set_m_sequences].
      intros Heq. by apply app_nil, proj2 in Heq. }
  intros Hin Hempty. destruct Hinv as [?|Hall]; [done|].
  rewrite Forall_forall in Hall. by destruct (Hall c Hin).
Qed.

(** X8: chunks are filled greedily: whenever a chunk is followed by another,
    it has a positive byte size and the first sequence of the next chunk
    would have taken it past [m_maxChunkSize]. *)
Theorem chunks_are_filled_greedily idx (i : nat) c c' :
  Built CHUNKID_MAX idx ->
  Index.m_chunks idx !! i = Some c ->
  Index.m_chunks idx !! S i = Some c' ->
  exists first rest,
    ChunkDescriptor.m_sequences c' = first :: rest /\
    0 < ChunkDescriptor.m_byteSize c /\
    Index.m_maxChunkSize idx
      < wrap64 (ChunkDescriptor.m_byteSize c + SequenceDescriptor.m_byteSize first).
Proof.
  intros HB. revert i c c'.
  induction HB as [|idx sd s e idx' HB IH _ _ _ H]; intros i c c' Hi HSi.
  - cbn in HSi. done.
  - apply (AddSequence_Returned CHUNKID_MAX) in H
      as (pre & c1 & pre' & c0 & Hc & _ & Hsplit & _ & _ & ->).
    cbn [Index.m_chunks Index.m_maxChunkSize] in *. rewrite Hc in IH.
    apply lookup_app_Some in HSi as [HSi|[Hge HSi]].
    + (* both chunks were there before *)
      assert (Hi' : pre' !! i = Some c).
      { apply lookup_lt_Some in HSi. by rewrite lookup_app_l in Hi by lia. }
      destruct Hsplit as [(-> & _)|(-> & _)].
      * apply (IH i); by apply lookup_app_l_Some.
      * by apply (IH i).
    + destruct (S i - length pre')%nat eqn:Hd; [|done]. cbn in HSi. injection HSi as <-.
      assert (Hi' : pre' !! i = Some c) by (rewrite lookup_app_l in Hi by lia; done).
      unfold push_sequence.
      cbn [ChunkDescriptor.m_sequences ChunkDescriptor.set_m_sequences].
      rewrite account_m_sequences.
      destruct Hsplit as [(-> & -> & _)|(-> & -> & Hpos & Hgt & _)].
      * destruct (IH i c c1) as (first & rest & Hseq & Hp & Hg).
        { by apply lookup_app_l_Some. }
        { apply list_lookup_middle. lia. }
        rewrite Hseq. exists first, (rest ++ [SequenceDescriptor.mk
          (SequenceDescriptor.m_key sd) (SequenceDescriptor.m_numberOfSamples sd)
          (wrap64 (s - ChunkDescriptor.m_offset c1)) (wrap64 (e - s))]).
        by rewrite app_comm_cons.
      * assert (c = c1) as ->.
        { rewrite length_app in Hge, Hd. cbn in Hge, Hd.
          rewrite list_lookup_middle in Hi' by lia. by injection Hi'. }
        eexists _, []. cbn. by repeat split.
Qed.

(** X9: when no stored sequence is larger than [m_maxChunkSize], no chunk
    is. *)
Theorem chunks_within_cap_when_records_fit idx c :
  Built CHUNKID_MAX idx ->
  Forall (fun x => SequenceDescriptor.m_byteSize x <= Index.m_maxChunkSize idx)
         (all_sequences idx) ->
  c ∈ Index.m_chunks idx ->
  ChunkDescriptor.m_byteSize c <= Index.m_maxChunkSize idx.
Proof.
  intros HB Hfit Hin.
  pose proof (Built_chunk_size_ok CHUNKID_MAX idx HB) as Hall.
  rewrite Forall_forall in Hall.
  destruct (Hall c Hin) as (_ & _ & [Hle|(zs & x & Hseq & _ & _ & Hgt)] & _); [done|].
  rewrite Forall_forall in Hfit.
  assert (Hx : x ∈ all_sequences idx).
  { apply list_elem_of_bind. exists c. split; [|done].
    rewrite Hseq. apply elem_of_app. right. by apply list_elem_of_singleton. }
  specialize (Hfit x Hx). lia.
Qed.

(** X10: the first record added after [Reserve] is admitted whatever the
    cap, provided its size and its file offset fit in 32 bits: the call
    returns, no chunk is opened and the chunk limit plays no part; the seeded
    chunk then holds exactly that record. *)
Theorem first_record_is_admitted chunkSize primary trackFirstSamples sizeInBytes sd s e :
  0 <= s -> s <= e -> e - s < 2 ^ 32 -> s < 2 ^ 32 ->
  AddSequence CHUNKID_MAX (Reserve (Index.ctor chunkSize primary trackFirstSamples) sizeInBytes)
    sd s e
  = (Index.mk
       [ChunkDescriptor.mk 0 (wrap64 (SequenceDescriptor.m_numberOfSamples sd)) 1
          [SequenceDescriptor.mk (SequenceDescriptor.m_key sd)
             (SequenceDescriptor.m_numberOfSamples sd) s (e - s)]
          0 (e - s) (if trackFirstSamples then [0] else [])]
       (if primary then ∅
        else {[ m_sequence (SequenceDescriptor.m_key sd) := (0, 0) ]})
       chunkSize primary trackFirstSamples,
     Returned).
Proof.
  intros Hs Hse Hsz Hs32.
  rewrite (AddSequence_back CHUNKID_MAX _ [] ChunkDescriptor.ctor) by done.
  cbn zeta.
  rewrite (wrap64_small (e - s)) by lia. rewrite (wrap32_small (e - s)) by lia.
  rewrite Z.eqb_refl.
  cbn [negb andb ChunkDescriptor.ctor ChunkDescriptor.m_byteSize ChunkDescriptor.m_sequences
       ChunkDescriptor.m_offset ChunkDescriptor.m_id Z.ltb Z.compare].
  change (vector_size []) with 0. change (wrap32 0) with 0. change (0 =? 0) with true.
  rewrite Z.sub_0_r, (wrap64_small s), (wrap32_small s), Z.eqb_refl by lia.
  cbn [negb andb Reserve Index.ctor Index.set_m_chunks Index.set_m_keyToSequenceInChunk
       Index.m_chunks Index.m_keyToSequenceInChunk Index.m_maxChunkSize Index.m_primary
       Index.m_trackFirstSamples app].
  unfold map_insert. rewrite lookup_empty, insert_empty.
  unfold push_sequence, account.
  destruct primary, trackFirstSamples; cbn;
    rewrite !Z.add_0_l, (wrap64_small (e - s)) by lia; reflexivity.
Qed.

(** X11: without [m_trackFirstSamples] no chunk ever gets a first-sample
    entry. *)
Theorem first_samples_stay_empty idx c :
  Built CHUNKID_MAX idx ->
  Index.m_trackFirstSamples idx = false ->
  c ∈ Index.m_chunks idx ->
  ChunkDescriptor.m_firstSamples c = [].
Proof.
  intros HB.
  assert (Hall : Index.m_trackFirstSamples idx = false ->
                 Forall (fun x => ChunkDescriptor.m_firstSamples x = []) (Index.m_chunks idx)).
  { induction HB as [|idx sd s e idx' HB IH _ _ _ H]; intros Ht.
    - cbn. by apply Forall_singleton.
    - apply (AddSequence_Returned CHUNKID_MAX) in H
        as (pre & c1 & pre' & c0 & Hc & _ & Hsplit & _ & _ & ->).
      cbn [Index.m_chunks Index.m_trackFirstSamples] in *.
      specialize (IH Ht). rewrite Hc in IH. rewrite Ht.
      apply Forall_app in IH as [IHpre IHc]. rewrite Forall_singleton in IHc.
      apply Forall_app. split.
      + destruct Hsplit as [(-> & _)|(-> & _)]; [done|].
        apply Forall_app. split; [done|]. by apply Forall_singleton.
      + apply Forall_singleton. unfold push_sequence.
        cbn [ChunkDescriptor.m_firstSamples ChunkDescriptor.set_m_sequences].
        rewrite account_m_firstSamples. cbn match.
        by destruct Hsplit as [(_ & -> & _)|(_ & -> & _)]. }
  intros Ht Hin. specialize (Hall Ht). rewrite Forall_forall in Hall. by apply Hall.
Qed.

(** X12: [IsEmpty] holds for a freshly constructed index.  [Reserve] throws
    exactly when the cap is positive and the number of chunks it asks
    [m_chunks.reserve] for exceeds [max_size()], and then leaves the index
    as it was, still empty if it was; when it returns it has appended one
    default-constructed chunk, and [IsEmpty] holds no more.  From then on no
    call of [AddSequence], returning or raising, empties the index.  While
    [IsEmpty] holds, [AddSequence] never returns and leaves the index
    untouched. *)
Theorem IsEmpty_until_Reserve :
  (forall chunkSize primary trackFirstSamples,
     Index.IsEmpty (Index.ctor chunkSize primary trackFirstSamples) = true) /\
  (forall max_size idx sizeInBytes,
     ((Reserve_or_throw max_size idx sizeInBytes).2 = LengthError <->
      0 < Index.m_maxChunkSize idx /\
      max_size < wrap64 (wrap64 (sizeInBytes + Index.m_maxChunkSize idx) - 1)
                 / Index.m_maxChunkSize idx) /\
     ((Reserve_or_throw max_size idx sizeInBytes).2 = LengthError ->
      (Reserve_or_throw max_size idx sizeInBytes).1 = idx) /\
     ((Reserve_or_throw max_size idx sizeInBytes).2 = ReserveReturned ->
      (Reserve_or_throw max_size idx sizeInBytes).1
        = Index.mk (Index.m_chunks idx ++ [ChunkDescriptor.mk 0 0 0 [] 0 0 []])
                   (Index.m_keyToSequenceInChunk idx) (Index.m_maxChunkSize idx)
                   (Index.m_primary idx) (Index.m_trackFirstSamples idx) /\
      (Reserve_or_throw max_size idx sizeInBytes).1 = Reserve idx sizeInBytes /\
      Index.IsEmpty (Reserve_or_throw max_size idx sizeInBytes).1 = false)) /\
  (forall idx sd s e,
     Index.IsEmpty idx = false ->
     Index.IsEmpty (AddSequence CHUNKID_MAX idx sd s e).1 = false) /\
  (forall idx sd s e,
     Index.IsEmpty idx = true ->
     (AddSequence CHUNKID_MAX idx sd s e).1 = idx /\
     (AddSequence CHUNKID_MAX idx sd s e).2 <> Returned).
Proof.
  split; [done|]. split.
  { intros max_size idx n. unfold Reserve_or_throw, reserve_request, Reserve.
    destruct (0 <? Index.m_maxChunkSize idx) eqn:Hmax.
    - apply Z.ltb_lt in Hmax.
      destruct (max_size <? wrap64 (wrap64 (n + Index.m_maxChunkSize idx) - 1)
                            / Index.m_maxChunkSize idx) eqn:Hreq; cbn [fst snd].
      + apply Z.ltb_lt in Hreq. split; [done|]. split; [done|]. done.
      + apply Z.ltb_ge in Hreq. split; [|split; [done|]].
        * split; [done|]. intros [_ Hlt]. lia.
        * intros _. split; [done|]. split; [done|].
          unfold Index.IsEmpty. cbn. by destruct (Index.m_chunks idx).
    - apply Z.ltb_ge in Hmax. cbn [fst snd]. split; [|split; [done|]].
      + split; [done|]. intros [Hpos _]. lia.
      + intros _. split; [done|]. split; [done|].
        unfold Index.IsEmpty. cbn. by destruct (Index.m_chunks idx). }
  split.
  - intros idx sd s e Hne.
    destruct (snoc_cases (Index.m_chunks idx)) as [Hnil|(pre & c & Hc)].
    { unfold Index.IsEmpty in Hne. by rewrite Hnil in Hne. }
    destruct (AddSequence_shape idx pre c sd s e Hc) as (pre' & c0 & c1 & km' & -> & _).
    unfold Index.IsEmpty. cbn. by destruct pre'.
  - intros idx sd s e He.
    assert (Hnil : Index.m_chunks idx = []).
    { unfold Index.IsEmpty in He. by destruct (Index.m_chunks idx). }
    rewrite (AddSequence_empty CHUNKID_MAX) by done. cbn [fst snd].
    split; [done|]. by destruct (negb _).
Qed.

(** X13: in a secondary index no chunk holds more than 2^32 sequences, so
    its [m_numberOfSequences] is the number of its sequences, without
    wrap-around. *)
Theorem secondary_chunk_sequence_count idx c :
  Built CHUNKID_MAX idx ->
  Index.m_primary idx = false ->
  c ∈ Index.m_chunks idx ->
  vector_size (ChunkDescriptor.m_sequences c) <= 2 ^ 32 /\
  ChunkDescriptor.m_numberOfSequences c = vector_size (ChunkDescriptor.m_sequences c).
Proof.
  intros HB.
  assert (Hall : Index.m_primary idx = false ->
                 Forall (fun x => vector_size (ChunkDescriptor.m_sequences x) <= 2 ^ 32)
                        (Index.m_chunks idx)).
  { induction HB as [|idx sd s e idx' HB IH _ _ _ H]; intros Hp.
    - cbn. apply Forall_singleton. unfold vector_size. cbn. lia.
    - apply (AddSequence_Returned CHUNKID_MAX) in H
        as (pre & c1 & pre' & c0 & Hc & _ & Hsplit & Hpos & _ & ->).
      cbn [Index.m_chunks Index.m_primary] in *.
      specialize (IH Hp). specialize (Hpos Hp). rewrite Hc in IH.
      apply Forall_app in IH as [IHpre IHc]. rewrite Forall_singleton in IHc.
      apply Forall_app. split.
      + destruct Hsplit as [(-> & _)|(-> & _)]; [done|].
        apply Forall_app. split; [done|]. by apply Forall_singleton.
      + apply Forall_singleton. unfold push_sequence.
        cbn [ChunkDescriptor.m_sequences ChunkDescriptor.set_m_sequences].
        rewrite account_m_sequences. unfold vector_size in *.
        rewrite length_app. cbn [length]. lia. }
  intros Hp Hin. specialize (Hall Hp).
  rewrite Forall_forall in Hall. specialize (Hall c Hin).
  split; [done|].
  pose proof (Built_chunk_totals idx HB) as Htot. rewrite Forall_forall in Htot.
  destruct (Htot c Hin) as (-> & _). apply wrap64_small.
  unfold vector_size in *. lia.
Qed.

(** ** [Reserve] *)

(** X14: with a positive cap, and unless [sizeInBytes + m_maxChunkSize - 1]
    exceeds a [size_t], [Reserve] asks the vector for room for the least
    number of chunks of [m_maxChunkSize] bytes that together hold
    [sizeInBytes] bytes; with a cap of 0 it asks for nothing. *)
Theorem Reserve_requests_enough_chunks idx sizeInBytes :
  0 <= sizeInBytes ->
  (0 < Index.m_maxChunkSize idx ->
   sizeInBytes + Index.m_maxChunkSize idx - 1 < 2 ^ 64 ->
   exists n,
     reserve_request idx sizeInBytes = Some n /\
     (n - 1) * Index.m_maxChunkSize idx < sizeInBytes <= n * Index.m_maxChunkSize idx) /\
  (Index.m_maxChunkSize idx = 0 -> reserve_request idx sizeInBytes = None).
Proof.
  intros Hsz. unfold reserve_request. split.
  - intros Hmax Hfit.
    assert ((0 <? Index.m_maxChunkSize idx) = true) as -> by (by apply Z.ltb_lt).
    eexists. split; [reflexivity|].
    assert (Hw : wrap64 (wrap64 (sizeInBytes + Index.m_maxChunkSize idx) - 1)
                 = sizeInBytes + Index.m_maxChunkSize idx - 1).
    { unfold wrap64. rewrite Zminus_mod_idemp_l. apply Z.mod_small. lia. }
    rewrite Hw.
    pose proof (Z.div_mod (sizeInBytes + Index.m_maxChunkSize idx - 1)
                  (Index.m_maxChunkSize idx) ltac:(lia)) as Hdm.
    pose proof (Z.mod_pos_bound (sizeInBytes + Index.m_maxChunkSize idx - 1)
                  (Index.m_maxChunkSize idx) ltac:(lia)) as Hb.
    nia.
  - intros ->. reflexivity.
Qed.

(** ** The other two errors *)

(** X15: a call that raises "Maximum number of chunks exceeded" found the
    last chunk non-empty and too full for the record, has pushed the new,
    empty chunk and left it in the vector, one chunk more than [CHUNKID_MAX]
    allows; nothing else has changed.  A call that raises "Number of
    sequences overflow the chunk capacity." was made on a secondary index
    whose last chunk holds at least 2^32 sequences; it did not open a chunk,
    has added the record to the byte size, sequence count and sample count
    of the last chunk (and to its first-sample table when that is tracked),
    and has touched neither the sequences of the chunk nor the key map. *)
Theorem raising_calls_leave_traces idx pre c sd s e :
  Index.m_chunks idx = pre ++ [c] ->
  ((AddSequence CHUNKID_MAX idx sd s e).2 = Raised MaximumNumberOfChunksExceeded ->
   0 < ChunkDescriptor.m_byteSize c /\
   Index.m_maxChunkSize idx < wrap64 (ChunkDescriptor.m_byteSize c + wrap64 (e - s)) /\
   CHUNKID_MAX < vector_size pre + 2 /\
   (AddSequence CHUNKID_MAX idx sd s e).1
   = Index.mk
       (pre ++ [c; ChunkDescriptor.mk
                     (to_ChunkIdType CHUNKID_MAX (wrap64 (vector_size pre + 1)))
                     0 0 [] 0 0 []])
       (Index.m_keyToSequenceInChunk idx) (Index.m_maxChunkSize idx)
       (Index.m_primary idx) (Index.m_trackFirstSamples idx)) /\
  ((AddSequence CHUNKID_MAX idx sd s e).2 = Raised NumberOfSequencesOverflow ->
   Index.m_primary idx = false /\
   2 ^ 32 <= vector_size (ChunkDescriptor.m_sequences c) /\
   exists c1,
     (AddSequence CHUNKID_MAX idx sd s e).1
     = Index.mk (pre ++ [c1]) (Index.m_keyToSequenceInChunk idx) (Index.m_maxChunkSize idx)
                (Index.m_primary idx) (Index.m_trackFirstSamples idx) /\
     ChunkDescriptor.m_id c1 = ChunkDescriptor.m_id c /\
     ChunkDescriptor.m_offset c1 = ChunkDescriptor.m_offset c /\
     ChunkDescriptor.m_sequences c1 = ChunkDescriptor.m_sequences c /\
     ChunkDescriptor.m_byteSize c1 = wrap64 (ChunkDescriptor.m_byteSize c + wrap64 (e - s)) /\
     ChunkDescriptor.m_numberOfSequences c1
       = wrap64 (ChunkDescriptor.m_numberOfSequences c + 1) /\
     ChunkDescriptor.m_numberOfSamples c1
       = wrap64 (ChunkDescriptor.m_numberOfSamples c
                 + SequenceDescriptor.m_numberOfSamples sd) /\
     ChunkDescriptor.m_firstSamples c1
       = (if Index.m_trackFirstSamples idx
          then ChunkDescriptor.m_firstSamples c ++ [ChunkDescriptor.m_numberOfSamples c]
          else ChunkDescriptor.m_firstSamples c)).
Proof.
  intros Hc. rewrite (AddSequence_back CHUNKID_MAX _ _ _ _ _ _ Hc). cbn zeta.
  destruct (wrap32 (wrap64 (e - s)) =? wrap64 (e - s)) eqn:Hsz; cbn [negb];
    [|by split].
  apply Z.eqb_eq in Hsz. rewrite Hsz.
  destruct ((0 <? ChunkDescriptor.m_byteSize c)
            && (Index.m_maxChunkSize idx
                  <? wrap64 (ChunkDescriptor.m_byteSize c + wrap64 (e - s)))) eqn:Hsplit;
    cbn [andb].
  - apply andb_true_iff in Hsplit as [Hpos%Z.ltb_lt Hcap%Z.ltb_lt].
    destruct (CHUNKID_MAX <? vector_size pre + 2) eqn:Hfull.
    { apply Z.ltb_lt in Hfull. cbn [fst snd]. split; [|done]. intros _.
      do 3 (split; [done|]). by rewrite <- app_assoc. }
    cbn [ChunkDescriptor.m_sequences]. change (vector_size []) with 0.
    change (wrap32 0) with 0. change (0 =? 0) with true.
    cbn [negb]. rewrite andb_false_r.
    match goal with
      | |- context [if negb (wrap32 ?x =? ?x) then _ else _] =>
          destruct (negb (wrap32 x =? x))
      end; cbn [fst snd]; by split.
  - destruct (negb (Index.m_primary idx)
              && negb (wrap32 (vector_size (ChunkDescriptor.m_sequences c))
                       =? vector_size (ChunkDescriptor.m_sequences c))) eqn:Hpos.
    + cbn [fst snd]. split; [done|]. intros _.
      apply andb_prop in Hpos as [Hp Hpos].
      apply negb_true_iff in Hp. apply negb_true_iff, Z.eqb_neq in Hpos.
      rewrite wrap32_fits in Hpos.
      split; [done|]. split; [unfold vector_size in *; lia|].
      eexists. split; [reflexivity|].
      rewrite account_m_id, account_m_offset, account_m_sequences, account_m_byteSize,
              account_m_numberOfSequences, account_m_numberOfSamples,
              account_m_firstSamples.
      by repeat split.
    + match goal with
      | |- context [if negb (wrap32 ?x =? ?x) then _ else _] =>
          destruct (negb (wrap32 x =? x))
      end; cbn [fst snd]; by split.
Qed.

End Further.

(** ** Concrete runs for the further properties *)

Lemma Built_duplicate_keys : Built CHUNKID_MAX_u32 duplicate_keys.
Proof.
  apply (build_Built CHUNKID_MAX_u32 10 false false 8 [mkCall (sd1 0) 0 4; mkCall (sd1 0) 4 8]).
  - unfold size_t. lia.
  - repeat constructor; unfold uint32_t, size_t; cbn; lia.
  - vm_compute. reflexivity.
Qed.

Lemma chunk_totals_witness :
  ChunkDescriptor.m_numberOfSequences (Index.m_chunks two_chunks !!! 0%nat)
    = wrap64 (vector_size (ChunkDescriptor.m_sequences (Index.m_chunks two_chunks !!! 0%nat))) /\
  ChunkDescriptor.m_numberOfSamples (Index.m_chunks two_chunks !!! 0%nat)
    = wrap64 (sum_samples (ChunkDescriptor.m_sequences (Index.m_chunks two_chunks !!! 0%nat))) /\
  ChunkDescriptor.m_byteSize (Index.m_chunks two_chunks !!! 0%nat)
    = wrap64 (sum_byteSize (ChunkDescriptor.m_sequences (Index.m_chunks two_chunks !!! 0%nat))).
Proof.
  apply (chunk_totals_match_sequences CHUNKID_MAX_u32 two_chunks).
  - exact Built_two_chunks.
  - apply (list_elem_of_lookup_2 _ 0%nat). vm_compute. reflexivity.
Defined.

Lemma key_map_entries_witness :
  Index.m_keyToSequenceInChunk two_chunks !! 1 = Some (1, 0) /\
  exists c x,
    0 <= (1, 0).1 < vector_size (Index.m_chunks two_chunks) /\
    Index.m_chunks two_chunks !! Z.to_nat (1, 0).1 = Some c /\
    0 <= (1, 0).2 < vector_size (ChunkDescriptor.m_sequences c) /\
    ChunkDescriptor.m_sequences c !! Z.to_nat (1, 0).2 = Some x /\
    m_sequence (SequenceDescriptor.m_key x) = 1.
Proof.
  split; [vm_compute; reflexivity|].
  apply (key_map_entries_resolve CHUNKID_MAX_u32 two_chunks 1 (1, 0)).
  - unfold CHUNKID_MAX_u32. lia.
  - exact Built_two_chunks.
  - vm_compute. reflexivity.
  - vm_compute. reflexivity.
Defined.

Lemma key_map_first_witness :
  all_sequences duplicate_keys
    = [] ++ SequenceDescriptor.mk (key 0) 1 0 4 :: [SequenceDescriptor.mk (key 0) 1 4 4] /\
  exists loc,
    Index.m_keyToSequenceInChunk duplicate_keys
      !! m_sequence (SequenceDescriptor.m_key (SequenceDescriptor.mk (key 0) 1 0 4))
      = Some loc /\
    resolve duplicate_keys loc = Some (SequenceDescriptor.mk (key 0) 1 0 4).
Proof.
  split; [vm_compute; reflexivity|].
  apply (key_map_points_at_first CHUNKID_MAX_u32 duplicate_keys []
           (SequenceDescriptor.mk (key 0) 1 0 4) [SequenceDescriptor.mk (key 0) 1 4 4]).
  - unfold CHUNKID_MAX_u32. lia.
  - exact Built_duplicate_keys.
  - vm_compute. reflexivity.
  - vm_compute. reflexivity.
  - constructor.
Defined.

Lemma call_order_witness :
  payload <$> all_sequences two_chunks
  = (payload <$> all_sequences (Reserve (Index.ctor 10 false true) 16))
    ++ (call_payload <$> two_records).
Proof.
  apply (sequences_follow_call_order CHUNKID_MAX_u32
           (Reserve (Index.ctor 10 false true) 16) two_records two_chunks).
  vm_compute. reflexivity.
Defined.

Lemma file_offsets_witness :
  Forall (fun c => ChunkDescriptor.m_offset c = 0) (Index.m_chunks two_chunks) /\
  SequenceDescriptor.m_chunkOffsetBytes <$> all_sequences two_chunks
    = call_start <$> two_records.
Proof.
  apply (chunk_offset_bytes_are_file_offsets CHUNKID_MAX_u32 10 false true 16
           two_records two_chunks).
  - unfold size_t. lia.
  - exact two_records_well_typed.
  - vm_compute. reflexivity.
Defined.

Lemma no_empty_chunk_witness :
  ChunkDescriptor.m_sequences ChunkDescriptor.ctor = [] /\
  Index.m_chunks seeded = [ChunkDescriptor.ctor].
Proof.
  split; [reflexivity|].
  apply (no_empty_chunk CHUNKID_MAX_u32 seeded ChunkDescriptor.ctor).
  - constructor. unfold size_t. lia.
  - apply (list_elem_of_lookup_2 _ 0%nat). reflexivity.
  - reflexivity.
Defined.

Lemma greedy_witness :
  exists first rest,
    ChunkDescriptor.m_sequences (Index.m_chunks two_chunks !!! 1%nat) = first :: rest /\
    0 < ChunkDescriptor.m_byteSize (Index.m_chunks two_chunks !!! 0%nat) /\
    Index.m_maxChunkSize two_chunks
      < wrap64 (ChunkDescriptor.m_byteSize (Index.m_chunks two_chunks !!! 0%nat)
                + SequenceDescriptor.m_byteSize first).
Proof.
  apply (chunks_are_filled_greedily CHUNKID_MAX_u32 two_chunks 0).
  - exact Built_two_chunks.
  - vm_compute. reflexivity.
  - vm_compute. reflexivity.
Defined.

Lemma within_cap_witness :
  ChunkDescriptor.m_byteSize (Index.m_chunks two_chunks !!! 1%nat)
  <= Index.m_maxChunkSize two_chunks.
Proof.
  apply (chunks_within_cap_when_records_fit CHUNKID_MAX_u32 two_chunks).
  - exact Built_two_chunks.
  - vm_compute. repeat constructor; discriminate.
  - apply (list_elem_of_lookup_2 _ 1%nat). vm_compute. reflexivity.
Defined.

Lemma first_record_witness :
  AddSequence CHUNKID_MAX_u32 (Reserve (Index.ctor 10 false true) 0) (sd1 7) 3 40
  = (Index.mk
       [ChunkDescriptor.mk 0 (wrap64 (SequenceDescriptor.m_numberOfSamples (sd1 7))) 1
          [SequenceDescriptor.mk (SequenceDescriptor.m_key (sd1 7))
             (SequenceDescriptor.m_numberOfSamples (sd1 7)) 3 (40 - 3)]
          0 (40 - 3) (if true then [0] else [])]
       (if false then ∅
        else {[ m_sequence (SequenceDescriptor.m_key (sd1 7)) := (0, 0) ]})
       10 false true,
     Returned).
Proof.
  apply (first_record_is_admitted CHUNKID_MAX_u32 10 false true 0 (sd1 7) 3 40); lia.
Defined.

Lemma first_samples_empty_witness :
  Index.m_trackFirstSamples large_chunk = false /\
  ChunkDescriptor.m_firstSamples (Index.m_chunks large_chunk !!! 0%nat) = [].
Proof.
  split; [vm_compute; reflexivity|].
  apply (first_samples_stay_empty CHUNKID_MAX_u32 large_chunk).
  - exact Built_large_chunk.
  - vm_compute. reflexivity.
  - apply (list_elem_of_lookup_2 _ 0%nat). vm_compute. reflexivity.
Defined.

Lemma secondary_count_witness :
  Index.m_primary two_chunks = false /\
  vector_size (ChunkDescriptor.m_sequences (Index.m_chunks two_chunks !!! 0%nat)) <= 2 ^ 32 /\
  ChunkDescriptor.m_numberOfSequences (Index.m_chunks two_chunks !!! 0%nat)
    = vector_size (ChunkDescriptor.m_sequences (Index.m_chunks two_chunks !!! 0%nat)).
Proof.
  split; [vm_compute; reflexivity|].
  apply (secondary_chunk_sequence_count CHUNKID_MAX_u32 two_chunks).
  - exact Built_two_chunks.
  - vm_compute. reflexivity.
  - apply (list_elem_of_lookup_2 _ 0%nat). vm_compute. reflexivity.
Defined.

Lemma Reserve_request_witness :
  exists n,
    reserve_request (Index.ctor 10 true false) 16 = Some n /\
    (n - 1) * Index.m_maxChunkSize (Index.ctor 10 true false) < 16
      <= n * Index.m_maxChunkSize (Index.ctor 10 true false).
Proof.
  apply (Reserve_requests_enough_chunks (Index.ctor 10 true false) 16).
  - lia.
  - cbn. lia.
  - cbn. lia.
Defined.

Lemma raising_calls_witness :
  (build 2 10 false true 16 two_records = (two_chunks, Returned) /\
   (AddSequence 2 two_chunks (sd1 2) 16 24).2 = Raised MaximumNumberOfChunksExceeded /\
   Index.m_chunks (AddSequence 2 two_chunks (sd1 2) 16 24).1
     = Index.m_chunks two_chunks ++ [ChunkDescriptor.mk 2 0 0 [] 0 0 []]) /\
  (build CHUNKID_MAX_u32 10 false false 0 (replicate two_pow_32 zero_record)
     = (crowded two_pow_32, Returned) /\
   (AddSequence CHUNKID_MAX_u32 (crowded two_pow_32) (sd1 0) 0 0).2
     = Raised NumberOfSequencesOverflow /\
   exists c1,
     Index.m_chunks (AddSequence CHUNKID_MAX_u32 (crowded two_pow_32) (sd1 0) 0 0).1 = [c1] /\
     ChunkDescriptor.m_numberOfSequences c1 = 2 ^ 32 + 1 /\
     ChunkDescriptor.m_numberOfSamples c1 = 2 ^ 32 + 1 /\
     ChunkDescriptor.m_sequences c1
       = replicate two_pow_32 (SequenceDescriptor.mk (key 0) 1 0 0)).
Proof.
  split.
  - assert (Hc : Index.m_chunks two_chunks
                 = take 1 (Index.m_chunks two_chunks) ++ [Index.m_chunks two_chunks !!! 1%nat])
      by (vm_compute; reflexivity).
    assert (Hr : (AddSequence 2 two_chunks (sd1 2) 16 24).2
                 = Raised MaximumNumberOfChunksExceeded)
      by (vm_compute; reflexivity).
    split; [vm_compute; reflexivity|]. split; [exact Hr|].
    destruct (proj1 (raising_calls_leave_traces 2 two_chunks
                       (take 1 (Index.m_chunks two_chunks))
                       (Index.m_chunks two_chunks !!! 1%nat) (sd1 2) 16 24 Hc) Hr)
      as (_ & _ & _ & Heq).
    rewrite Heq. vm_compute. reflexivity.
  - pose proof (crowded_overflow CHUNKID_MAX_u32 two_pow_32 two_pow_32_spec) as Hr.
    split; [apply run_zero_records; rewrite two_pow_32_spec; lia|].
    split; [exact Hr|].
    destruct (proj2 (raising_calls_leave_traces CHUNKID_MAX_u32 (crowded two_pow_32) []
                       (ChunkDescriptor.mk 0 (Z.of_nat two_pow_32) (Z.of_nat two_pow_32)
                          (replicate two_pow_32 (SequenceDescriptor.mk (key 0) 1 0 0)) 0 0 [])
                       (sd1 0) 0 0 eq_refl) Hr)
      as (_ & _ & c1 & Heq & _ & _ & Hseq & _ & Hn & Hsm & _).
    exists c1. rewrite Heq. split; [reflexivity|].
    rewrite Hn, Hsm, Hseq.
    cbn [ChunkDescriptor.m_numberOfSequences ChunkDescriptor.m_numberOfSamples
         ChunkDescriptor.m_sequences].
    rewrite two_pow_32_spec. repeat split; reflexivity.
Defined.

Lemma key_map_witness :
  build CHUNKID_MAX_u32 10 false true 16 two_records = (two_chunks, Returned) /\
  Index.m_keyToSequenceInChunk two_chunks !! 1 = Some (1, 0) /\
  exists y,
    resolve two_chunks (1, 0) = Some y /\
    m_sequence (SequenceDescriptor.m_key y) = 1 /\
    payload y = (key 1, 1, 8).
Proof.
  assert (Hrun : build CHUNKID_MAX_u32 10 false true 16 two_records = (two_chunks, Returned))
    by (vm_compute; reflexivity).
  split; [exact Hrun|].
  destruct (proj2 (key_map_locates_every_sequence CHUNKID_MAX_u32 10 false true 16
                     two_records two_chunks
                     ltac:(unfold CHUNKID_MAX_u32; lia) ltac:(unfold size_t; lia)
                     two_records_well_typed Hrun)
              eq_refl (mkCall (sd1 1) 8 16))
    as (loc & y & Hloc & Hy & Hk & Hnd).
  { apply (list_elem_of_lookup_2 _ 1%nat). reflexivity. }
  assert (Hl : Index.m_keyToSequenceInChunk two_chunks !! 1 = Some (1, 0))
    by (vm_compute; reflexivity).
  assert (Heq : loc = (1, 0)).
  { change (Index.m_keyToSequenceInChunk two_chunks !! 1 = Some loc) in Hloc.
    rewrite Hl in Hloc. by injection Hloc. }
  subst loc.
  split; [exact Hl|].
  exists y. split; [exact Hy|]. split; [exact Hk|].
  apply Hnd. cbn. apply NoDup_cons. split; [|apply NoDup_singleton].
  intros H%list_elem_of_singleton. discriminate H.
Defined.

Lemma IsEmpty_witness :
  (Reserve_or_throw (2 ^ 63 - 1) (Index.ctor 1 true false) (2 ^ 63)).2 = LengthError /\
  (Reserve_or_throw (2 ^ 63 - 1) (Index.ctor 1 true false) (2 ^ 63)).1
    = Index.ctor 1 true false /\
  (Reserve_or_throw (2 ^ 63 - 1) (Index.ctor 10 true false) 16).2 = ReserveReturned /\
  Index.IsEmpty (Reserve_or_throw (2 ^ 63 - 1) (Index.ctor 10 true false) 16).1 = false.
Proof.
  pose proof (proj1 (proj2 (IsEmpty_until_Reserve CHUNKID_MAX_u32))) as HR.
  assert (Hthrow : (Reserve_or_throw (2 ^ 63 - 1) (Index.ctor 1 true false) (2 ^ 63)).2
                   = LengthError).
  { apply (proj1 (HR (2 ^ 63 - 1) (Index.ctor 1 true false) (2 ^ 63))).
    vm_compute. split; reflexivity. }
  split; [exact Hthrow|].
  split; [exact (proj1 (proj2 (HR _ _ _)) Hthrow)|].
  split; [vm_compute; reflexivity|].
  apply (proj2 (proj2 (HR (2 ^ 63 - 1) (Index.ctor 10 true false) 16))).
  vm_compute. reflexivity.
Defined.
